(** * ChurnGuard: inference and attribution pipeline

    A shallow embedding of the Python backend
    ([utils/data_preprocessing.py], [services/prediction_service.py],
    [services/shap_service.py], [services/batch_service.py],
    [services/ai_service.py], [routes.py], [utils/model_loader.py],
    [utils/extract.py]) together with the properties its specification
    states about it and further properties read off the code.

    Conventions.
    - A [float] of the program is modelled by the rational number it
      denotes ([Q]); the missing value [NaN]/[None] of a table cell is a
      constructor of its own.
    - A pandas [DataFrame] is a row count together with its columns in
      order; tables read from a CSV file or built from a dict have pairwise
      distinct column labels and columns as long as the index ([wf_frame]).
    - Python objects that the code copies or assigns into live in a store;
      a reference is an index into it.
    - The trained pipeline, the number parser of [pd.to_numeric] and the
      formatting builtins are not part of the repository: they are
      parameters of the development. *)

From Stdlib Require Import QArith Qabs Lia Lqa Ascii String.
From stdpp Require Import base option strings list sorting.

Local Open Scope string_scope.
Local Open Scope list_scope.

(** ** Exceptions and outcomes *)

Inductive exn :=
| KeyError (k : string)
| IndexError
| ValueError
| NoSuchObject.

Inductive outcome (A : Type) :=
| Ok (a : A)
| Raise (e : exn).
Arguments Ok {A} a.
Arguments Raise {A} e.

#[global] Instance outcome_ret : MRet outcome := λ A a, Ok a.
#[global] Instance outcome_bind : MBind outcome := λ A B k m,
  match m with
  | Ok a => k a
  | Raise e => Raise e
  end.

(** ** Table cells, series and frames *)

Inductive cell :=
| CStr (s : string)
| CNum (q : Q)
| CNaN.

Abbreviation series := (list cell) (only parsing).

Record DataFrame := mkDF {
  nrows : nat;
  cols : list (string * series)
}.

Definition columns (df : DataFrame) : list string := map fst (cols df).

Definition wf_frame (df : DataFrame) : Prop :=
  NoDup (columns df) ∧ Forall (λ c, length (snd c) = nrows df) (cols df).

Definition has_column (name : string) (df : DataFrame) : bool :=
  bool_decide (name ∈ columns df).

Fixpoint assoc (name : string) (cs : list (string * series)) : option series :=
  match cs with
  | [] => None
  | (n, v) :: cs' => if String.eqb n name then Some v else assoc name cs'
  end.

(** [df.drop(columns=[name])]: a new frame without the column. *)
Definition drop_column (name : string) (df : DataFrame) : DataFrame :=
  mkDF (nrows df) (filter (λ c, fst c ≠ name) (cols df)).

(** [df[name] = v] on the frame's value: an existing column is overwritten
    in place, a new one is appended. *)
Definition set_column (name : string) (v : series) (df : DataFrame) : DataFrame :=
  if has_column name df
  then mkDF (nrows df)
            (map (λ c, if String.eqb (fst c) name then (name, v) else c) (cols df))
  else mkDF (nrows df) (cols df ++ [(name, v)]).

(** [df.empty]: some axis has length zero. *)
Definition empty (df : DataFrame) : bool :=
  (nrows df =? 0)%nat || (length (cols df) =? 0)%nat.

Fixpoint select {A} (mask : list bool) (l : list A) : list A :=
  match mask, l with
  | b :: mask', x :: l' => if b then x :: select mask' l' else select mask' l'
  | _, _ => []
  end.

(** [df[mask]] with a boolean array: the rows whose mask entry is true. *)
Definition df_mask (mask : list bool) (df : DataFrame) : outcome DataFrame :=
  if (length mask =? nrows df)%nat
  then Ok (mkDF (length (filter (λ b, b = true) mask))
                (map (λ c, (fst c, select mask (snd c))) (cols df)))
  else Raise ValueError.

(** ** The object store *)

Abbreviation ref := nat (only parsing).
Abbreviation store := (list DataFrame) (only parsing).
Definition St (A : Type) : Type := store → outcome (A * store).

#[global] Instance St_ret : MRet St := λ A a s, Ok (a, s).
#[global] Instance St_bind : MBind St := λ A B k m s,
  match m s with
  | Ok (a, s') => k a s'
  | Raise e => Raise e
  end.

Definition raise {A} (e : exn) : St A := λ _, Raise e.

Definition lift {A} (o : outcome A) : St A := λ s,
  match o with
  | Ok a => Ok (a, s)
  | Raise e => Raise e
  end.

Definition df_load (r : ref) : St DataFrame := λ s,
  match s !! r with
  | Some f => Ok (f, s)
  | None => Raise NoSuchObject
  end.

Definition df_new (f : DataFrame) : St ref := λ s, Ok (length s, s ++ [f]).

Definition df_store (r : ref) (f : DataFrame) : St unit := λ s,
  if decide (r < length s) then Ok ((), <[r := f]> s) else Raise NoSuchObject.

(** [df.copy()] *)
Definition df_copy (r : ref) : St ref := f ← df_load r; df_new f.

(** [df.columns] *)
Definition df_columns (r : ref) : St (list string) :=
  f ← df_load r; mret (columns f).

(** [df.drop(columns=[name])] returns a new object. *)
Definition df_drop (r : ref) (name : string) : St ref :=
  f ← df_load r; df_new (drop_column name f).

(** [df[name]] *)
Definition df_getitem (r : ref) (name : string) : St series :=
  f ← df_load r;
  match assoc name (cols f) with
  | Some v => mret v
  | None => raise (KeyError name)
  end.

(** [df[name] = v] mutates the object [r] refers to. *)
Definition df_setitem (r : ref) (name : string) (v : series) : St unit :=
  f ← df_load r;
  if (length v =? nrows f)%nat
  then df_store r (set_column name v f)
  else raise ValueError.

Fixpoint for_each {A} (l : list A) (body : A → St unit) : St unit :=
  match l with
  | [] => mret ()
  | x :: l' => body x;; for_each l' body
  end.

(** ** utils/data_preprocessing.py *)

Section Preprocessing.

(** The number parser behind [pd.to_numeric]: [None] when the text is not
    a number. *)
Variable parse_number : string → option Q.

(** [pd.to_numeric(s, errors='coerce')] *)
Definition to_numeric_cell (c : cell) : cell :=
  match c with
  | CStr s => match parse_number s with Some q => CNum q | None => CNaN end
  | CNum q => CNum q
  | CNaN => CNaN
  end.

Definition to_numeric (s : series) : series := map to_numeric_cell s.

(** [s.fillna(v)] *)
Definition fillna (v : Q) (s : series) : series :=
  map (λ c, match c with CNaN => CNum v | _ => c end) s.

(** [s.replace(old, new)] for string values *)
Definition replace (old new : string) (s : series) : series :=
  map (λ c, match c with
            | CStr x => if String.eqb x old then CStr new else c
            | _ => c
            end) s.

Definition replace_cols : list string :=
  ["MultipleLines"; "OnlineSecurity"; "OnlineBackup";
   "DeviceProtection"; "TechSupport"; "StreamingTV"; "StreamingMovies"].

Definition clean_data (df : ref) : St ref :=
  df ← df_copy df;
  c ← df_columns df;
  df ← (if bool_decide ("customerID" ∈ c) then df_drop df "customerID" else mret df);
  c ← df_columns df;
  df ← (if bool_decide ("Churn" ∈ c) then df_drop df "Churn" else mret df);
  c ← df_columns df;
  (if bool_decide ("TotalCharges" ∈ c)
   then s ← df_getitem df "TotalCharges";
        df_setitem df "TotalCharges" (fillna 0 (to_numeric s))
   else mret ());;
  for_each replace_cols (λ col,
    c ← df_columns df;
    if bool_decide (col ∈ c)
    then s ← df_getitem df col;
         df_setitem df col (replace "No internet service" "No" s);;
         s ← df_getitem df col;
         df_setitem df col (replace "No phone service" "No" s)
    else mret ());;
  mret df.

End Preprocessing.

(** ** Numbers and arrays *)

(** [a < b] on floats *)
Definition Qltb (a b : Q) : bool := negb (Qle_bool b a).

Abbreviation matrix := (list (list Q)) (only parsing).

Definition Qsum (l : list Q) : Q := foldr Qplus 0%Q l.

Definition column (j : nat) (a : matrix) : list Q := map (λ r, nth j r 0%Q) a.

Definition ncols (a : matrix) : nat :=
  match a with
  | [] => 0
  | r :: _ => length r
  end.

(** The arithmetic mean; it is only taken of non-empty columns here. *)
Definition mean (l : list Q) : Q := (Qsum l / inject_Z (Z.of_nat (length l)))%Q.

(** [np.mean(a, axis=0)]. The program adds and divides in double
    precision; [mean] is the exact mean of the rationals the entries
    denote. The two agree where the sum and the quotient are representable
    (the halves, quarters and eighths of the reference instances below);
    elsewhere the program's value is the rounded one, and two columns whose
    exact means differ can have equal means in the program. The statements
    about the aggregate therefore say which means are paired with which
    names and that no mean is negative; none of them orders two means other
    than at the reference instances. *)
Definition mean_axis0 (a : matrix) : list Q :=
  map (λ j, mean (column j a)) (seq 0 (ncols a)).

(** [np.abs(a)] *)
Definition abs_array (a : matrix) : matrix := map (map Qabs) a.

(** [l[i]] for a non-negative index *)
Definition index {A} (l : list A) (i : nat) : outcome A :=
  match l !! i with
  | Some x => Ok x
  | None => Raise IndexError
  end.

(** [a[:, j]] *)
Fixpoint column_at (j : nat) (a : matrix) : outcome (list Q) :=
  match a with
  | [] => Ok []
  | r :: a' => x ← index r j; xs ← column_at j a'; mret (x :: xs)
  end.

(** [l[:n]] with Python's reading of a negative bound *)
Definition slice_to {A} (n : Z) (l : list A) : list A :=
  if (n <? 0)%Z
  then take (Z.to_nat (Z.of_nat (length l) + n)) l
  else take (Z.to_nat n) l.

(** [l.sort(key=key, reverse=True)]: stable, largest key first. An element
    is placed in front of the entries that follow it in the input unless
    their key is strictly larger. *)
Fixpoint insert_desc {A} (key : A → Q) (x : A) (l : list A) : list A :=
  match l with
  | [] => [x]
  | y :: l' =>
      if Qltb (key x) (key y) then y :: insert_desc key x l' else x :: y :: l'
  end.

Definition sort_reverse {A} (key : A → Q) (l : list A) : list A :=
  foldr (insert_desc key) [] l.

(** ** The trained pipeline *)

(** What [explainer.shap_values] returns: a list of arrays, one per class,
    or a single array. *)
Inductive shap_output :=
| PerClass (l : list matrix)
| SingleArray (a : matrix).

(** The unpickled model: a two-stage pipeline with the named steps
    ['preprocessor'] and ['classifier'], and the tree explainer built on
    the classifier. *)
Record Pipeline := mkPipeline {
  preprocessor_transform : DataFrame → outcome matrix;
  classifier_predict : matrix → outcome (list Z);
  classifier_predict_proba : matrix → outcome matrix;
  explainer_shap_values : matrix → outcome shap_output
}.

(** [model.predict(df)] *)
Definition model_predict (model : Pipeline) (df : DataFrame) : outcome (list Z) :=
  X ← preprocessor_transform model df; classifier_predict model X.

(** [model.predict_proba(df)] *)
Definition model_predict_proba (model : Pipeline) (df : DataFrame) : outcome matrix :=
  X ← preprocessor_transform model df; classifier_predict_proba model X.

(** ** services/shap_service.py *)

Definition positive_class (sv : shap_output) : outcome matrix :=
  match sv with
  | PerClass l => index l 1
  | SingleArray a => Ok a
  end.

Definition calculate_shap_values (model : Pipeline) (preprocessed_data : DataFrame)
  : outcome (list Q * list string) :=
  X_transformed ← preprocessor_transform model preprocessed_data;
  shap_vals ← explainer_shap_values model X_transformed;
  shap_vals ← positive_class shap_vals;
  let shap_vals := concat shap_vals in
  let feature_names := columns preprocessed_data in
  mret (shap_vals, feature_names).

Definition get_top_features (shap_values : list Q) (feature_names : list string)
    (top_n : Z) : list (string * Q) :=
  let feats := zip feature_names shap_values in
  let feats := sort_reverse (λ x, Qabs (snd x)) feats in
  slice_to top_n feats.

Record ShapAggregate := mkAggregate {
  top_features : list (string * Q);
  mean_shap_values : list Q;
  agg_feature_names : list string
}.

Definition calculate_batch_shap_aggregate (model : Pipeline) (high_risk_data : DataFrame)
  : outcome (option ShapAggregate) :=
  if empty high_risk_data then mret None
  else
    X_transformed ← preprocessor_transform model high_risk_data;
    shap_vals ← explainer_shap_values model X_transformed;
    shap_vals ← positive_class shap_vals;
    let feature_names := columns high_risk_data in
    let mean_shap := mean_axis0 (abs_array shap_vals) in
    let top_features := zip feature_names mean_shap in
    let top_features := sort_reverse (λ x, Qabs (snd x)) top_features in
    mret (Some (mkAggregate (slice_to 10 top_features) mean_shap feature_names)).

(** ** services/prediction_service.py *)

(** A dict of customer attributes, in insertion order. *)
Abbreviation record := (list (string * cell)) (only parsing).

(** [pd.DataFrame([d])] *)
Definition frame_of_record (d : record) : DataFrame :=
  mkDF 1 (map (λ kv, (fst kv, [snd kv])) d).

Record PredictionResult := mkResult {
  prediction : Z;
  churn_probability : Q;
  shap_values : list Q;
  feature_names : list string
}.

Definition risk_level (p : Q) : cell :=
  if Qltb 0.6 p then CStr "High" else CStr "Low".

Section Prediction.

Variable parse_number : string → option Q.
Variable model : Pipeline.

Definition predict_single (customer_data : record) : St PredictionResult :=
  df ← df_new (frame_of_record customer_data);
  df_clean ← clean_data parse_number df;
  cleaned ← df_load df_clean;
  preds ← lift (model_predict model cleaned);
  pred ← lift (index preds 0);
  proba ← lift (model_predict_proba model cleaned);
  row ← lift (index proba 0);
  prob ← lift (index row 1);
  sv ← lift (calculate_shap_values model cleaned);
  mret (mkResult pred prob (fst sv) (snd sv)).

Definition predict_batch (df : ref) (include_shap : bool)
  : St (ref * ref * list Q * option ShapAggregate) :=
  df_clean ← clean_data parse_number df;
  cleaned ← df_load df_clean;
  proba ← lift (model_predict_proba model cleaned);
  probs ← lift (column_at 1 proba);
  preds ← lift (model_predict model cleaned);
  results_df ← df_copy df;
  df_setitem results_df "Churn_Probability" (map CNum probs);;
  df_setitem results_df "Risk_Level" (map risk_level probs);;
  shap_aggregate ←
    (if include_shap
     then
       let high_risk_mask := map (Qltb 0.6) probs in
       if existsb id high_risk_mask
       then high_risk_data ← lift (df_mask high_risk_mask cleaned);
            lift (calculate_batch_shap_aggregate model high_risk_data)
       else mret None
     else mret None);
  mret (results_df, df_clean, probs, shap_aggregate).

End Prediction.

(** ** services/batch_service.py *)

Definition newline : string := String (Ascii.ascii_of_nat 10) "".

Definition sentinel_summary : string :=
  "Great news! Very few high-risk customers detected.".

Section BatchService.

(** pandas reducers and Python's formatting builtins *)
Variable series_mean : series → outcome Q.
Variable series_mode : series → series.
Variable format_float : nat → Q → string.
Variable str_cell : cell → string.
Variable str_nat : nat → string.

Definition mean_of_column (name : string) (df : DataFrame) : outcome Q :=
  match assoc name (cols df) with
  | Some s => series_mean s
  | None => Ok 0%Q
  end.

Definition shap_insights (top : list (string * Q)) : string :=
  foldl (λ acc line, acc +:+ line)
    (newline +:+ "    - Top Churn Drivers (Feature Importance):")
    (imap (λ i fv,
             newline +:+ "      " +:+ str_nat (S i) +:+ ". " +:+ fst fv +:+ ": "
             +:+ format_float 3 (snd fv) +:+ " (avg impact)") top).

Definition analyze_high_risk_group (df_clean : DataFrame) (probs : list Q)
    (shap_aggregate : option ShapAggregate) : outcome string :=
  high_risk_df ← df_mask (map (Qltb 0.6) probs) df_clean;
  let total_customers := nrows df_clean in
  let churn_rate :=
    if (0 <? total_customers)%nat
    then (inject_Z (Z.of_nat (nrows high_risk_df))
          / inject_Z (Z.of_nat total_customers) * 100)%Q
    else 0%Q in
  if empty high_risk_df then mret sentinel_summary
  else
    let cat_summary :=
      flat_map (λ col,
        match assoc col (cols high_risk_df) with
        | Some s =>
            match series_mode s with
            | top_val :: _ => [col +:+ ": " +:+ str_cell top_val]
            | [] => []
            end
        | None => []
        end) ["Contract"; "InternetService"; "PaymentMethod"; "TechSupport"] in
    avg_tenure ← mean_of_column "tenure" high_risk_df;
    avg_charge ← mean_of_column "MonthlyCharges" high_risk_df;
    let summary_stats :=
      newline
      +:+ "    - High Risk Customers: " +:+ str_nat (nrows high_risk_df)
      +:+ " (" +:+ format_float 1 churn_rate +:+ "% of total)" +:+ newline
      +:+ "    - Average Tenure of Risk Group: " +:+ format_float 1 avg_tenure
      +:+ " months" +:+ newline
      +:+ "    - Average Monthly Charge: $" +:+ format_float 2 avg_charge +:+ newline
      +:+ "    - Common Patterns: " +:+ String.concat ", " cat_summary +:+ newline
      +:+ "    " in
    match shap_aggregate with
    | Some agg =>
        match top_features agg with
        | _ :: _ => mret (summary_stats +:+ shap_insights (slice_to 5 (top_features agg)))
        | [] => mret summary_stats
        end
    | None => mret summary_stats
    end.

End BatchService.

(** ** What a call of [clean_data] computes *)

Section CleanFrame.

Variable parse_number : string → option Q.

(** The cleaned content of the column labelled [name]. *)
Definition clean_column (name : string) (v : series) : series :=
  if String.eqb name "TotalCharges" then fillna 0 (to_numeric parse_number v)
  else if existsb (String.eqb name) replace_cols
  then replace "No phone service" "No" (replace "No internet service" "No" v)
  else v.

(** The frame a call of [clean_data] returns, as a function of the frame
    it is given: see [clean_data_run]. *)
Definition clean_frame (f : DataFrame) : DataFrame :=
  mkDF (nrows f)
       (map (λ c, (fst c, clean_column (fst c) (snd c)))
            (filter (λ c, fst c ≠ "customerID" ∧ fst c ≠ "Churn") (cols f))).

End CleanFrame.

(** [df[name] = h(df[name])] when the column is present, on values. *)
Definition map_column (name : string) (h : series → series) (f : DataFrame) : DataFrame :=
  mkDF (nrows f)
       (map (λ c, if String.eqb (fst c) name then (name, h (snd c)) else c) (cols f)).

#[global] Instance wf_frame_dec f : Decision (wf_frame f).
Proof. unfold wf_frame. apply _. Defined.

(** ** Arrays, continued *)

(** [np.argmax(row)]: the first index that holds the largest entry. *)
Fixpoint argmax_from (best_i : nat) (best : Q) (i : nat) (l : list Q) : nat :=
  match l with
  | [] => best_i
  | x :: l' =>
      if Qltb best x then argmax_from i x (S i) l' else argmax_from best_i best (S i) l'
  end.

Definition argmax (l : list Q) : Z :=
  match l with
  | [] => 0
  | x :: l' => Z.of_nat (argmax_from 0 x 1 l')
  end.

(** ** Stores that grow *)

(** The store [s] extends [s0] by objects allocated since, and [r] is one
    of those, holding [g]. *)
Definition extends (s0 : store) (r : ref) (g : DataFrame) (s : store) : Prop :=
  s0 `prefix_of` s ∧ (length s0 ≤ r)%nat ∧ s !! r = Some g.

(** ** Ranking orders *)

(** Position [i] comes before position [j] in a ranking by the values [v]:
    the larger value first, the earlier position first among equal values. *)
Definition precedes (v : list Q) (i j : nat) : Prop :=
  (nth j v 0%Q < nth i v 0%Q)%Q ∨ ((nth i v 0%Q == nth j v 0%Q)%Q ∧ i < j).

(** The same by magnitude, as [get_top_features] ranks. *)
Definition ranks_before (v : list Q) (i j : nat) : Prop :=
  precedes (map Qabs v) i j.

(** The order of the entries of a sorted list: by [key], largest first, and
    by position among equal keys. *)
Definition before {A} (key : A → Q) (pos : A → nat) (x y : A) : Prop :=
  (key y < key x)%Q ∨ ((key x == key y)%Q ∧ pos x < pos y).

(** The entries of [l] at the positions [order]. *)
Definition pick {A} (d : A) (l : list A) (order : list nat) : list A :=
  map (λ i, nth i l d) order.

(** ** Reference instances *)

(** A parser of plain decimal numerals ([-12], [95.0], [ 7.25 ]), standing
    for the number parser of pandas in the examples. *)
Module Decimal.

Definition is_space (a : ascii) : bool :=
  let n := Ascii.nat_of_ascii a in
  (n =? 32)%nat || ((9 <=? n)%nat && (n <=? 13)%nat).

Fixpoint lstrip (l : list ascii) : list ascii :=
  match l with
  | a :: l' => if is_space a then lstrip l' else l
  | [] => []
  end.

Definition strip (l : list ascii) : list ascii := rev (lstrip (rev (lstrip l))).

Definition digit (a : ascii) : option Z :=
  let n := Ascii.nat_of_ascii a in
  if (48 <=? n)%nat && (n <=? 57)%nat then Some (Z.of_nat (n - 48)) else None.

Fixpoint digits (acc : Z) (l : list ascii) : option Z :=
  match l with
  | [] => Some acc
  | a :: l' => d ← digit a; digits (10 * acc + d) l'
  end.

Fixpoint integer_part (l : list ascii) : list ascii :=
  match l with
  | a :: l' => if Ascii.eqb a "." then [] else a :: integer_part l'
  | [] => []
  end.

Definition unsigned (l : list ascii) : option Q :=
  let ip := integer_part l in
  match drop (length ip) l with
  | [] => match ip with [] => None | _ => n ← digits 0 ip; Some (inject_Z n) end
  | _ :: fp =>
      match ip, fp with
      | [], [] => None
      | _, _ => n ← digits 0 (ip ++ fp);
                Some (Qmake n (Z.to_pos (10 ^ Z.of_nat (length fp))))
      end
  end.

Definition parse (s : string) : option Q :=
  match strip (list_ascii_of_string s) with
  | "-"%char :: r => Qopp <$> unsigned r
  | "+"%char :: r => unsigned r
  | l => unsigned l
  end.

End Decimal.

(** A small pipeline in the shape of the trained one: the preprocessor
    one-hot encodes [Contract] and passes [tenure] through, the classifier
    scores the encoded row. *)
Module Demo.

Definition contract_levels : list string :=
  ["Month-to-month"; "One year"; "Two year"].

Definition one_hot (c : cell) : list Q :=
  map (λ lv, match c with
             | CStr x => if String.eqb x lv then 1%Q else 0%Q
             | _ => 0%Q
             end) contract_levels.

Definition number (c : cell) : Q :=
  match c with
  | CNum q => q
  | _ => 0%Q
  end.

Definition transform (df : DataFrame) : outcome matrix :=
  match assoc "Contract" (cols df), assoc "tenure" (cols df) with
  | Some c, Some t => Ok (zip_with (λ c t, one_hot c ++ [number t]) c t)
  | None, _ => Raise (KeyError "Contract")
  | _, None => Raise (KeyError "tenure")
  end.

Definition churn_score (row : list Q) : Q :=
  match row with
  | m :: _ => if Qeq_bool m 1 then 0.8%Q else 0.2%Q
  | [] => 0.5%Q
  end.

Definition predict_proba (X : matrix) : outcome matrix :=
  Ok (map (λ r, [(1 - churn_score r)%Q; churn_score r]) X).

Definition predict (X : matrix) : outcome (list Z) :=
  P ← predict_proba X; mret (map argmax P).

Definition contributions (row : list Q) : list Q :=
  map (λ x, (x * 0.25)%Q) row.

Definition shap (X : matrix) : outcome shap_output :=
  Ok (PerClass [map (λ r, map Qopp (contributions r)) X; map contributions X]).

Definition model : Pipeline := mkPipeline transform predict predict_proba shap.

Definition customer : record :=
  [("customerID", CStr "7590-VHVEG");
   ("gender", CStr "Female");
   ("Contract", CStr "Month-to-month");
   ("tenure", CNum 1);
   ("TechSupport", CStr "No internet service");
   ("MonthlyCharges", CNum 29.85);
   ("TotalCharges", CStr " ")].

(** Stand-ins for the pandas reducers and the formatting builtins. *)
Definition series_mean (s : list cell) : outcome Q := Ok (mean (map number s)).
Definition series_mode (s : list cell) : list cell := take 1 s.
Definition format_float (digits : nat) (q : Q) : string := "0.0".
Definition str_cell (c : cell) : string :=
  match c with
  | CStr x => x
  | _ => ""
  end.
Definition str_nat (n : nat) : string := "n".

Definition table : DataFrame :=
  mkDF 3 [("customerID", [CStr "a"; CStr "b"; CStr "c"]);
          ("Contract", [CStr "Month-to-month"; CStr "Two year"; CStr "Month-to-month"]);
          ("tenure", [CNum 1; CNum 60; CNum 2]);
          ("TotalCharges", [CStr "95.0"; CStr " "; CNaN]);
          ("Churn", [CStr "Yes"; CStr "No"; CStr "Yes"])].

End Demo.

(** A second pipeline, in the shape of gradient boosting on one numeric
    feature. The classifier scores a row by its [tenure] alone, reports the
    score as the churn probability and answers class 1 when the score is at
    least 1/2, as a classifier does that decides on its raw score by
    [raw >= 0] (gradient boosting in current scikit-learn), a raw score of
    0 having probability 1/2.
    Its explainer returns a single array. The probabilities it gives
    include the two boundaries 0.5 and 0.6. *)
Module Boundary.

Definition transform (df : DataFrame) : outcome matrix :=
  match assoc "tenure" (cols df) with
  | Some t => Ok (map (λ c, [Demo.number c]) t)
  | None => Raise (KeyError "tenure")
  end.

Definition churn_score (row : list Q) : Q :=
  match row with
  | t :: _ =>
      if Qle_bool t 12 then 0.8%Q
      else if Qle_bool t 24 then 0.6%Q
      else if Qle_bool t 48 then 0.5%Q
      else 0.2%Q
  | [] => 0.5%Q
  end.

Definition predict_proba (X : matrix) : outcome matrix :=
  Ok (map (λ r, [(1 - churn_score r)%Q; churn_score r]) X).

Definition predict (X : matrix) : outcome (list Z) :=
  Ok (map (λ r, if Qle_bool 0.5 (churn_score r) then 1%Z else 0%Z) X).

Definition shap (X : matrix) : outcome shap_output :=
  Ok (SingleArray (map (λ r, [(churn_score r - 0.5)%Q]) X)).

Definition model : Pipeline := mkPipeline transform predict predict_proba shap.

Definition customer : record :=
  [("customerID", CStr "5575-GNVDE");
   ("Contract", CStr "One year");
   ("tenure", CNum 36);
   ("MonthlyCharges", CNum 56.95);
   ("TotalCharges", CStr "1889.5")].

Definition table : DataFrame :=
  mkDF 4 [("customerID", [CStr "a"; CStr "b"; CStr "c"; CStr "d"]);
          ("Contract", [CStr "Month-to-month"; CStr "One year"; CStr "One year";
                        CStr "Two year"]);
          ("tenure", [CNum 1; CNum 24; CNum 36; CNum 60]);
          ("MonthlyCharges", [CNum 70.5; CNum 56.95; CNum 56.95; CNum 20.25])].

End Boundary.

(** ** services/ai_service.py *)

Definition dquote : string := String (Ascii.ascii_of_nat 34) "".

(** [risk_level = 'High' if churn_probability > 0.5 else 'Low'] *)
Definition prompt_risk_level (churn_probability : Q) : string :=
  if Qltb 0.5 churn_probability then "High" else "Low".

Section AiService.

(** Python's formatting builtins: [f"{x:.1%}"], [f"{x:.nf}"], [str(n)]. *)
Variable format_percent : Q → string.
Variable format_float : nat → Q → string.
Variable str_nat : nat → string.

Definition generate_shap_explanation_prompt (churn_probability : Q)
    (top_features : list (string * Q)) (context : string) : string :=
  let risk_level := prompt_risk_level churn_probability in
  let top_drivers :=
    String.concat newline
      (map (λ f, "- " +:+ fst f +:+ ": " +:+ format_float 3 (snd f)) top_features) in
  newline
  +:+ "    Act as a Retention Manager. Analyze this customer and company context:"
  +:+ newline
  +:+ "    Churn Risk: " +:+ format_percent churn_probability
  +:+ " (" +:+ risk_level +:+ ")" +:+ newline
  +:+ "    company context: " +:+ context +:+ newline
  +:+ "    " +:+ newline
  +:+ "    Top Drivers:" +:+ newline
  +:+ "    " +:+ top_drivers +:+ newline
  +:+ "    " +:+ newline
  +:+ "    Briefly explain why they might leave and suggest 1 retention action."
  +:+ newline
  +:+ "    ".

Definition generate_batch_strategy_prompt (total_customers : nat)
    (summary_stats : string) (context : string) : string :=
  newline
  +:+ "    You are a generic Strategy Consultant. " +:+ newline
  +:+ "    I have analyzed a batch of " +:+ str_nat total_customers
  +:+ " customers. Here is the summary of the " +:+ dquote +:+ "At Risk" +:+ dquote
  +:+ " segment:" +:+ newline
  +:+ "    " +:+ newline
  +:+ "    " +:+ summary_stats +:+ newline
  +:+ "    company context: " +:+ context +:+ newline
  +:+ "    " +:+ newline
  +:+ "    Based on these stats, feature importance data (SHAP values), and company context, provide a brief "
  +:+ dquote +:+ "Retention Strategy Report" +:+ dquote +:+ " with:" +:+ newline
  +:+ "    1. **Executive Summary**: What is the main problem? Focus on the top churn drivers identified."
  +:+ newline
  +:+ "    2. **3 Actionable Strategies**: Specific things to do, prioritized by the feature importance data. For example:"
  +:+ newline
  +:+ "       - If " +:+ dquote +:+ "Contract" +:+ dquote
  +:+ " is a top driver, suggest contract upgrade incentives" +:+ newline
  +:+ "       - If " +:+ dquote +:+ "Tenure" +:+ dquote
  +:+ " is important, focus on early-stage retention programs" +:+ newline
  +:+ "       - If " +:+ dquote +:+ "PaymentMethod" +:+ dquote
  +:+ " matters, offer payment plan options" +:+ newline
  +:+ "    " +:+ newline
  +:+ "    Keep it professional, concise, and use markdown formatting. Prioritize strategies based on the feature importance rankings."
  +:+ newline
  +:+ "    ".

End AiService.

(** ** routes.py, utils/model_loader.py, utils/extract.py *)

(** The request body of [/predict]. *)
Record CustomerProfile := mkProfile {
  gender : string;
  SeniorCitizen : Z;
  Partner : string;
  Dependents : string;
  tenure : Z;
  PhoneService : string;
  MultipleLines : string;
  InternetService : string;
  OnlineSecurity : string;
  OnlineBackup : string;
  DeviceProtection : string;
  TechSupport : string;
  StreamingTV : string;
  StreamingMovies : string;
  Contract : string;
  PaperlessBilling : string;
  PaymentMethod : string;
  MonthlyCharges : Q;
  TotalCharges : string
}.

(** The profile a request without a body denotes: the field defaults. *)
Definition default_profile : CustomerProfile :=
  mkProfile "Male" 0 "No" "No" 12 "Yes" "No" "Fiber optic" "No" "No" "No" "No"
            "Yes" "Yes" "Month-to-month" "Yes" "Electronic check" 70.0 "840.0".

(** [customer.model_dump()] *)
Definition model_dump (c : CustomerProfile) : record :=
  [("gender", CStr (gender c));
   ("SeniorCitizen", CNum (inject_Z (SeniorCitizen c)));
   ("Partner", CStr (Partner c));
   ("Dependents", CStr (Dependents c));
   ("tenure", CNum (inject_Z (tenure c)));
   ("PhoneService", CStr (PhoneService c));
   ("MultipleLines", CStr (MultipleLines c));
   ("InternetService", CStr (InternetService c));
   ("OnlineSecurity", CStr (OnlineSecurity c));
   ("OnlineBackup", CStr (OnlineBackup c));
   ("DeviceProtection", CStr (DeviceProtection c));
   ("TechSupport", CStr (TechSupport c));
   ("StreamingTV", CStr (StreamingTV c));
   ("StreamingMovies", CStr (StreamingMovies c));
   ("Contract", CStr (Contract c));
   ("PaperlessBilling", CStr (PaperlessBilling c));
   ("PaymentMethod", CStr (PaymentMethod c));
   ("MonthlyCharges", CNum (MonthlyCharges c));
   ("TotalCharges", CStr (TotalCharges c))].

(** What a handler answers: a body, or [HTTPException(status_code, detail)]. *)
Inductive http (A : Type) :=
| Response (body : A)
| HTTPException (status_code : nat) (detail : string).
Arguments Response {A} body.
Arguments HTTPException {A} status_code detail.

(** The value of [latest_prediction_storage] once a prediction is stored. *)
Record LatestPrediction := mkLatest {
  latest_probability : Q;
  latest_shap_values : list Q;
  latest_feature_names : list string
}.

(** The process state the handlers share: the objects of the heap and the
    global [latest_prediction_storage] ([None] for the empty dict). *)
Record AppState := mkApp {
  heap : list DataFrame;
  latest_prediction_storage : option LatestPrediction
}.

Record BatchAnalysis := mkBatchAnalysis {
  strategy_report : string;
  data : list record
}.

(** [df.to_dict(orient="records")] *)
Definition to_dict_records (df : DataFrame) : list record :=
  map (λ i, map (λ c, (fst c, nth i (snd c) CNaN)) (cols df)) (seq 0 (nrows df)).

Module Routes.

Section App.

(** The collaborators outside the repository: the number parser of
    pandas, [joblib.load], reading a text file, the Gemini call,
    [pd.read_csv], [str] of an exception, the pandas reducers and the
    formatting builtins. *)
Variable parse_number : string → option Q.
Variable joblib_load : string → outcome Pipeline.
Variable read_text : string → outcome string.
Variable get_gemini_explanation : string → outcome string.
Variable read_csv : string → outcome DataFrame.
Variable str_exn : exn → string.
Variable series_mean : list cell → outcome Q.
Variable series_mode : list cell → list cell.
Variable format_percent : Q → string.
Variable format_float : nat → Q → string.
Variable str_cell : cell → string.
Variable str_nat : nat → string.

(** utils/model_loader.py: the model, or [None] when loading fails. *)
Definition load_model (model_path : string) : option Pipeline :=
  match joblib_load model_path with
  | Ok model => Some model
  | Raise _ => None
  end.

(** utils/extract.py: the text of the file, or the empty string. *)
Definition extract_context (file_path : string) : string :=
  match read_text file_path with
  | Ok context => context
  | Raise _ => ""
  end.

Definition model : option Pipeline := load_model "data/best_churn_model.pkl".

Definition context : string := extract_context "data/policies.txt".

(** A handler answers and leaves a state. The objects a call that
    raised had allocated are unreachable: the heap is then kept as it
    was. *)
Definition Handler (A : Type) : Type := AppState → http A * AppState.

Definition predict_single_endpoint (customer : CustomerProfile)
  : Handler PredictionResult := λ st,
  match model with
  | None => (HTTPException 500 "Model not loaded", st)
  | Some model =>
      let input_data := model_dump customer in
      match predict_single parse_number model input_data (heap st) with
      | Ok (result, h) =>
          (Response result,
           mkApp h (Some (mkLatest (churn_probability result)
                                   (shap_values result)
                                   (feature_names result))))
      | Raise e => (HTTPException 500 (str_exn e), st)
      end
  end.

Definition batch_analysis (model : Pipeline) (contents : string) : St BatchAnalysis :=
  frame ← lift (read_csv contents);
  df ← df_new frame;
  out ← predict_batch parse_number model df true;
  let '(results_df, df_clean, probs, shap_aggregate) := out in
  cleaned ← df_load df_clean;
  summary_stats ← lift (analyze_high_risk_group series_mean series_mode format_float
                          str_cell str_nat cleaned probs shap_aggregate);
  uploaded ← df_load df;
  let prompt :=
    generate_batch_strategy_prompt str_nat (nrows uploaded) summary_stats context in
  report ← lift (get_gemini_explanation prompt);
  replaced ← df_copy results_df;
  results ← df_load replaced;
  mret (mkBatchAnalysis report (to_dict_records results)).

Definition predict_batch_analysis_endpoint (file : string)
  : Handler BatchAnalysis := λ st,
  match model with
  | None => (HTTPException 500 "Model not loaded", st)
  | Some model =>
      match batch_analysis model file (heap st) with
      | Ok (body, h) => (Response body, mkApp h (latest_prediction_storage st))
      | Raise e => (HTTPException 500 (str_exn e), st)
      end
  end.

Definition explain_shap_endpoint : Handler string := λ st,
  match latest_prediction_storage st with
  | None => (HTTPException 400 "No prediction found. Run /predict first.", st)
  | Some data =>
      let prob := latest_probability data in
      let top_5 :=
        get_top_features (latest_shap_values data) (latest_feature_names data) 5 in
      let prompt :=
        generate_shap_explanation_prompt format_percent format_float prob top_5 context in
      match get_gemini_explanation prompt with
      | Ok explanation => (Response explanation, st)
      | Raise e => (HTTPException 500 (str_exn e), st)
      end
  end.

End App.

End Routes.

(** ** What the prediction services compute *)

(** The result of [predict_single] as a function of the cleaned frame: see
    [predict_single_run]. *)
Definition score (model : Pipeline) (cleaned : DataFrame) : outcome PredictionResult :=
  preds ← model_predict model cleaned;
  pred ← index preds 0;
  proba ← model_predict_proba model cleaned;
  row ← index proba 0;
  prob ← index row 1;
  sv ← calculate_shap_values model cleaned;
  mret (mkResult pred prob (fst sv) (snd sv)).

(** The aggregate of [predict_batch] as a function of the probabilities and
    the cleaned frame: see [predict_batch_run]. *)
Definition aggregate_of (model : Pipeline) (include_shap : bool) (probs : list Q)
    (cleaned : DataFrame) : outcome (option ShapAggregate) :=
  if include_shap && existsb id (map (Qltb 0.6) probs)
  then high_risk_data ← df_mask (map (Qltb 0.6) probs) cleaned;
       calculate_batch_shap_aggregate model high_risk_data
  else Ok None.

(** The summary of [analyze_high_risk_group] as a function of the rows it
    has selected: the statements of the function that follow its first
    line, with [high_risk_df] and [len(df_clean)] given. See
    [analyze_selected]. *)
Section CohortSummary.

Variable series_mean : series → outcome Q.
Variable series_mode : series → series.
Variable format_float : nat → Q → string.
Variable str_cell : cell → string.
Variable str_nat : nat → string.

Definition cohort_summary (high_risk_df : DataFrame) (total_customers : nat)
    (shap_aggregate : option ShapAggregate) : outcome string :=
  let churn_rate :=
    if (0 <? total_customers)%nat
    then (inject_Z (Z.of_nat (nrows high_risk_df))
          / inject_Z (Z.of_nat total_customers) * 100)%Q
    else 0%Q in
  if empty high_risk_df then mret sentinel_summary
  else
    let cat_summary :=
      flat_map (λ col,
        match assoc col (cols high_risk_df) with
        | Some s =>
            match series_mode s with
            | top_val :: _ => [col +:+ ": " +:+ str_cell top_val]
            | [] => []
            end
        | None => []
        end) ["Contract"; "InternetService"; "PaymentMethod"; "TechSupport"] in
    avg_tenure ← mean_of_column series_mean "tenure" high_risk_df;
    avg_charge ← mean_of_column series_mean "MonthlyCharges" high_risk_df;
    let summary_stats :=
      newline
      +:+ "    - High Risk Customers: " +:+ str_nat (nrows high_risk_df)
      +:+ " (" +:+ format_float 1 churn_rate +:+ "% of total)" +:+ newline
      +:+ "    - Average Tenure of Risk Group: " +:+ format_float 1 avg_tenure
      +:+ " months" +:+ newline
      +:+ "    - Average Monthly Charge: $" +:+ format_float 2 avg_charge +:+ newline
      +:+ "    - Common Patterns: " +:+ String.concat ", " cat_summary +:+ newline
      +:+ "    " in
    match shap_aggregate with
    | Some agg =>
        match top_features agg with
        | _ :: _ =>
            mret (summary_stats
                  +:+ shap_insights format_float str_nat (slice_to 5 (top_features agg)))
        | [] => mret summary_stats
        end
    | None => mret summary_stats
    end.

End CohortSummary.

(** Stand-ins for the collaborators of the routes. *)
Module DemoApp.

Definition joblib_load (path : string) : outcome Pipeline :=
  if String.eqb path "data/best_churn_model.pkl" then Ok Demo.model
  else Raise ValueError.

(** A process whose model file cannot be loaded. *)
Definition joblib_load_failing (path : string) : outcome Pipeline :=
  Raise ValueError.

Definition read_text (path : string) : outcome string := Ok "Refunds within 30 days.".

Definition get_gemini_explanation (prompt : string) : outcome string :=
  Ok "Offer a one-year contract.".

Definition read_csv (contents : string) : outcome DataFrame :=
  if String.eqb contents "" then Raise ValueError else Ok Demo.table.

Definition str_exn (e : exn) : string :=
  match e with
  | KeyError k => k
  | IndexError => "list index out of range"
  | ValueError => "invalid value"
  | NoSuchObject => "no such object"
  end.

Definition format_percent (q : Q) : string := "0.0%".

(** A profile whose contract is one the reference encoder knows. *)
Definition profile : CustomerProfile := default_profile.

Definition initial : AppState := mkApp [] None.

End DemoApp.

(** * Properties *)

(** ** Running store operations *)

Lemma bind_Ok {A B} (m : St A) (k : A → St B) s a s' :
  m s = Ok (a, s') → (m ≫= k) s = k a s'.
Proof. intros H. unfold mbind, St_bind. now rewrite H. Qed.

Lemma df_load_Ok s r f : s !! r = Some f → df_load r s = Ok (f, s).
Proof. intros H. unfold df_load. now rewrite H. Qed.

Lemma df_copy_Ok s r f :
  s !! r = Some f → df_copy r s = Ok (length s, s ++ [f]).
Proof. intros H. unfold df_copy. now rewrite (bind_Ok _ _ _ _ _ (df_load_Ok _ _ _ H)). Qed.

Lemma df_columns_Ok s r f :
  s !! r = Some f → df_columns r s = Ok (columns f, s).
Proof. intros H. unfold df_columns. now rewrite (bind_Ok _ _ _ _ _ (df_load_Ok _ _ _ H)). Qed.

Lemma df_drop_Ok s r f name :
  s !! r = Some f → df_drop r name s = Ok (length s, s ++ [drop_column name f]).
Proof. intros H. unfold df_drop. now rewrite (bind_Ok _ _ _ _ _ (df_load_Ok _ _ _ H)). Qed.

Lemma df_getitem_Ok s r f name v :
  s !! r = Some f → assoc name (cols f) = Some v → df_getitem r name s = Ok (v, s).
Proof.
  intros H Hv. unfold df_getitem.
  rewrite (bind_Ok _ _ _ _ _ (df_load_Ok _ _ _ H)). now rewrite Hv.
Qed.

Lemma df_setitem_Ok s r f name v :
  s !! r = Some f → length v = nrows f →
  df_setitem r name v s = Ok ((), <[r := set_column name v f]> s).
Proof.
  intros H Hl. unfold df_setitem.
  rewrite (bind_Ok _ _ _ _ _ (df_load_Ok _ _ _ H)).
  apply Nat.eqb_eq in Hl. rewrite Hl. unfold df_store.
  apply lookup_lt_Some in H. now rewrite decide_True.
Qed.

Lemma extends_alloc s0 r g s g' :
  extends s0 r g s → extends s0 (length s) g' (s ++ [g']).
Proof.
  intros (Hp & Hr & Hg). split; [|split].
  - etrans; [exact Hp|]. now apply prefix_app_r.
  - apply prefix_length in Hp. lia.
  - rewrite lookup_app_r by lia. now rewrite Nat.sub_diag.
Qed.

Lemma extends_update s0 r g s g' :
  extends s0 r g s → extends s0 r g' (<[r := g']> s).
Proof.
  intros (Hp & Hr & Hg). split; [|split]; [|done|].
  - destruct Hp as [k ->]. exists (<[r - length s0 := g']> k).
    now rewrite insert_app_r_alt by lia.
  - apply list_lookup_insert_eq. now apply lookup_lt_Some in Hg.
Qed.

Lemma extends_old s0 r g s l f :
  extends s0 r g s → s0 !! l = Some f → s !! l = Some f.
Proof. intros ([k ->] & _ & _) H. now apply lookup_app_l_Some. Qed.

(** ** Frames as values *)

Lemma assoc_elem name cs v : assoc name cs = Some v → (name, v) ∈ cs.
Proof.
  induction cs as [|[n w] cs IH]; simpl; [done|].
  destruct (String.eqb_spec n name) as [->|Hne]; intros H.
  - injection H as ->. apply list_elem_of_here.
  - apply list_elem_of_further. auto.
Qed.

Lemma assoc_None name cs : assoc name cs = None ↔ name ∉ map fst cs.
Proof.
  induction cs as [|[n w] cs IH]; simpl.
  - split; [intros _; apply not_elem_of_nil | done].
  - rewrite not_elem_of_cons, <- IH.
    destruct (String.eqb_spec n name) as [->|Hne].
    + split; [done | intros [Hn _]; now destruct Hn].
    + split; [intros H; split; [congruence | exact H] | intros [_ H]; exact H].
Qed.

Lemma assoc_is_Some name cs : name ∈ map fst cs → is_Some (assoc name cs).
Proof.
  intros H. destruct (assoc name cs) eqn:E; [eauto|].
  apply assoc_None in E. done.
Qed.

Lemma NoDup_fst_unique (cs : list (string * list cell)) n v w :
  NoDup (map fst cs) → (n, v) ∈ cs → (n, w) ∈ cs → v = w.
Proof.
  induction cs as [|[m u] cs IH]; simpl; intros Hnd Hv Hw.
  - now apply elem_of_nil in Hv.
  - apply NoDup_cons in Hnd as [Hm Hnd].
    apply elem_of_cons in Hv as [Hv|Hv], Hw as [Hw|Hw].
    + congruence.
    + injection Hv as -> ->. exfalso. apply Hm.
      apply (list_elem_of_fmap_2 fst) in Hw. exact Hw.
    + injection Hw as -> ->. exfalso. apply Hm.
      apply (list_elem_of_fmap_2 fst) in Hv. exact Hv.
    + auto.
Qed.

Lemma set_column_map_column name h g v :
  NoDup (columns g) → assoc name (cols g) = Some v →
  set_column name (h v) g = map_column name h g.
Proof.
  intros Hnd Hv. unfold set_column, map_column, has_column.
  pose proof (assoc_elem _ _ _ Hv) as Hin.
  rewrite bool_decide_eq_true_2
    by (apply (list_elem_of_fmap_2 fst) in Hin; exact Hin).
  f_equal. apply map_ext_in. intros [n w] Hc. simpl.
  destruct (String.eqb_spec n name) as [->|]; [|done].
  apply list_elem_of_In in Hc.
  now rewrite (NoDup_fst_unique _ _ _ _ Hnd Hc Hin).
Qed.

Lemma map_column_absent name h g : name ∉ columns g → map_column name h g = g.
Proof.
  intros Hn. destruct g as [n cs]. unfold map_column, columns in *. simpl in *.
  f_equal. induction cs as [|[m u] cs IH]; simpl; [done|].
  simpl in Hn. apply not_elem_of_cons in Hn as [Hm Hn].
  destruct (String.eqb_spec m name); [congruence|]. now rewrite IH.
Qed.

Lemma drop_column_absent name g : name ∉ columns g → drop_column name g = g.
Proof.
  intros Hn. destruct g as [n cs]. unfold drop_column, columns in *. simpl in *.
  f_equal. induction cs as [|[m u] cs IH]; simpl; [done|].
  simpl in Hn. apply not_elem_of_cons in Hn as [Hm Hn].
  rewrite filter_cons_True by (simpl; congruence). now rewrite IH.
Qed.

Lemma columns_map_column name h g : columns (map_column name h g) = columns g.
Proof.
  unfold columns, map_column. simpl. rewrite map_map. apply map_ext.
  intros [n w]. simpl. now destruct (String.eqb_spec n name).
Qed.

Lemma wf_map_column name h g :
  (∀ v, length (h v) = length v) → wf_frame g → wf_frame (map_column name h g).
Proof.
  intros Hh [Hnd Hl]. split.
  - now rewrite columns_map_column.
  - unfold map_column. simpl. apply Forall_map. eapply Forall_impl; [exact Hl|].
    intros [n w]. simpl. intros Hw.
    destruct (String.eqb_spec n name); simpl; [now rewrite Hh | done].
Qed.

Lemma wf_drop_column name g : wf_frame g → wf_frame (drop_column name g).
Proof.
  intros [Hnd Hl]. split.
  - unfold columns, drop_column. simpl.
    eapply sublist_NoDup; [exact Hnd | apply (fmap_sublist fst), sublist_filter].
  - unfold drop_column. simpl. rewrite Forall_forall in Hl |- *.
    intros c Hc. apply list_elem_of_filter in Hc as [_ Hc]. auto.
Qed.

Lemma wf_column_length g name v :
  wf_frame g → assoc name (cols g) = Some v → length v = nrows g.
Proof.
  intros [_ Hl] Hv. apply assoc_elem in Hv.
  rewrite Forall_forall in Hl. exact (Hl _ Hv).
Qed.

(** ** Running [clean_data] *)

Lemma drop_step s0 r g s name :
  extends s0 r g s →
  ∃ r' s',
    (if bool_decide (name ∈ columns g) then df_drop r name else mret r) s
      = Ok (r', s')
    ∧ extends s0 r' (drop_column name g) s'.
Proof.
  intros He. case_bool_decide as Hc.
  - exists (length s), (s ++ [drop_column name g]). split.
    + apply df_drop_Ok, He.
    + eapply extends_alloc, He.
  - exists r, s. split; [done|]. now rewrite drop_column_absent.
Qed.

Lemma update_step s0 r g s name h :
  extends s0 r g s → wf_frame g → (∀ v, length (h v) = length v) →
  ∃ s',
    (if bool_decide (name ∈ columns g)
     then v ← df_getitem r name; df_setitem r name (h v)
     else mret ()) s = Ok ((), s')
    ∧ extends s0 r (map_column name h g) s'.
Proof.
  intros He Hwf Hh. pose proof He as (_ & _ & Hg). case_bool_decide as Hc.
  - destruct (assoc_is_Some _ _ Hc) as [v Hv].
    exists (<[r := map_column name h g]> s). split.
    + rewrite (bind_Ok _ _ _ _ _ (df_getitem_Ok _ _ _ _ _ Hg Hv)).
      rewrite (df_setitem_Ok _ _ g)
        by (done || (rewrite Hh; eapply wf_column_length; eauto)).
      now rewrite (set_column_map_column _ _ _ _ (proj1 Hwf) Hv).
    + eapply extends_update, He.
  - exists s. split; [done|]. now rewrite map_column_absent.
Qed.

Section CleanDataRun.

Variable parse_number : string → option Q.

Lemma length_to_numeric v : length (to_numeric parse_number v) = length v.
Proof. apply length_map. Qed.

Lemma length_fillna q v : length (fillna q v) = length v.
Proof. apply length_map. Qed.

Lemma length_replace a b v : length (replace a b v) = length v.
Proof. apply length_map. Qed.

Lemma replace_comm_idem v :
  let R v := replace "No phone service" "No" (replace "No internet service" "No" v) in
  R (R v) = R v.
Proof.
  cbv zeta. unfold replace. rewrite !map_map. apply map_ext. intros [x|q|]; try done.
  destruct (String.eqb x "No internet service") eqn:E1.
  - reflexivity.
  - destruct (String.eqb x "No phone service") eqn:E2; [reflexivity|].
    now rewrite E1, E2.
Qed.

(** The columns after the loop over [l]. *)
Lemma replace_loop_frame (R1 R2 : list cell → list cell) l :
  (∀ v, R2 (R1 (R2 (R1 v))) = R2 (R1 v)) →
  ∀ g,
    foldl (λ g col, map_column col R2 (map_column col R1 g)) g l
    = mkDF (nrows g)
           (map (λ c, (fst c, if existsb (String.eqb (fst c)) l
                              then R2 (R1 (snd c)) else snd c)) (cols g)).
Proof.
  intros HR. induction l as [|col l IH]; intros [n cs].
  - cbn. f_equal. induction cs as [|[m v] cs IHcs]; [done|]. cbn. now f_equal.
  - cbn [foldl]. rewrite IH. unfold map_column. cbn [nrows cols]. f_equal.
    rewrite !map_map. apply map_ext. intros [m v]. simpl.
    destruct (String.eqb m col) eqn:E; simpl.
    + apply String.eqb_eq in E as ->. rewrite ?String.eqb_refl. simpl.
      destruct (existsb (String.eqb col) l); [now rewrite HR | done].
    + rewrite ?E. simpl. rewrite ?E. done.
Qed.

Lemma total_charges_kept : existsb (String.eqb "TotalCharges") replace_cols = false.
Proof. vm_compute. reflexivity. Qed.

(** The frame after the steps of [clean_data], one after the other. *)
Lemma clean_steps_frame f :
  foldl (λ g col,
           map_column col (replace "No phone service" "No")
             (map_column col (replace "No internet service" "No") g))
        (map_column "TotalCharges" (λ v, fillna 0 (to_numeric parse_number v))
           (drop_column "Churn" (drop_column "customerID" f)))
        replace_cols
  = clean_frame parse_number f.
Proof.
  rewrite replace_loop_frame by apply replace_comm_idem.
  unfold clean_frame, map_column, drop_column. cbn [nrows cols]. f_equal.
  rewrite list_filter_filter, map_map.
  erewrite list_filter_iff; [apply map_ext|]; [|intros c; split; intros []; done].
  intros [n v]. unfold clean_column. cbn [fst snd].
  destruct (String.eqb_spec n "TotalCharges") as [->|Hne]; cbn [fst snd].
  - now rewrite total_charges_kept.
  - reflexivity.
Qed.

Lemma replace_loop_run l : ∀ s0 r g s,
  extends s0 r g s → wf_frame g →
  ∃ s',
    for_each l (λ col,
      c ← df_columns r;
      if bool_decide (col ∈ c)
      then v ← df_getitem r col;
           df_setitem r col (replace "No internet service" "No" v);;
           v ← df_getitem r col;
           df_setitem r col (replace "No phone service" "No" v)
      else mret ()) s = Ok ((), s')
    ∧ extends s0 r
        (foldl (λ g col,
                  map_column col (replace "No phone service" "No")
                    (map_column col (replace "No internet service" "No") g))
               g l) s'.
Proof.
  induction l as [|col l IH]; intros s0 r g s He Hwf; simpl.
  - exists s. split; [done | exact He].
  - pose proof He as (_ & _ & Hg).
    set (g1 := map_column col (replace "No internet service" "No") g).
    set (g2 := map_column col (replace "No phone service" "No") g1).
    assert (Hwf1 : wf_frame g1) by (apply wf_map_column; [apply length_replace | done]).
    assert (Hwf2 : wf_frame g2) by (apply wf_map_column; [apply length_replace | done]).
    assert (∃ s1, (c ← df_columns r;
              if bool_decide (col ∈ c)
              then v ← df_getitem r col;
                   df_setitem r col (replace "No internet service" "No" v);;
                   v ← df_getitem r col;
                   df_setitem r col (replace "No phone service" "No" v)
              else mret ()) s = Ok ((), s1) ∧ extends s0 r g2 s1) as (s1 & Hrun & He1).
    { rewrite (bind_Ok _ _ _ _ _ (df_columns_Ok _ _ _ Hg)).
      destruct (update_step s0 r g s col _ He Hwf (length_replace "No internet service" "No"))
        as (sa & Ha & Hea).
      destruct (update_step s0 r g1 sa col _ Hea Hwf1 (length_replace "No phone service" "No"))
        as (sb & Hb & Heb).
      assert (Hcols : columns g1 = columns g) by apply columns_map_column.
      rewrite Hcols in Hb.
      exists sb. split; [|exact Heb].
      case_bool_decide as Hc; [|unfold mret, St_ret in *; congruence].
      unfold mbind, St_bind in Ha, Hb |- *.
      destruct (df_getitem r col s) as [[v s']|]; [|done].
      rewrite Ha. exact Hb. }
    destruct (IH s0 r g2 s1 He1 Hwf2) as (s' & Hl & He').
    exists s'. split; [|exact He'].
    now rewrite (bind_Ok _ _ _ _ _ Hrun).
Qed.

Lemma clean_data_run s r f :
  s !! r = Some f → wf_frame f →
  ∃ r' s',
    clean_data parse_number r s = Ok (r', s')
    ∧ extends s r' (clean_frame parse_number f) s'.
Proof.
  intros Hf Hwf. unfold clean_data.
  rewrite (bind_Ok _ _ _ _ _ (df_copy_Ok _ _ _ Hf)).
  assert (He0 : extends s (length s) f (s ++ [f])).
  { split; [now apply prefix_app_r | split; [done|]].
    rewrite lookup_app_r by lia. now rewrite Nat.sub_diag. }
  rewrite (bind_Ok _ _ _ _ _ (df_columns_Ok _ _ _ (proj2 (proj2 He0)))).
  destruct (drop_step _ _ _ _ "customerID" He0) as (r1 & s1 & Hr1 & He1).
  rewrite (bind_Ok _ _ _ _ _ Hr1).
  rewrite (bind_Ok _ _ _ _ _ (df_columns_Ok _ _ _ (proj2 (proj2 He1)))).
  destruct (drop_step _ _ _ _ "Churn" He1) as (r2 & s2 & Hr2 & He2).
  rewrite (bind_Ok _ _ _ _ _ Hr2).
  rewrite (bind_Ok _ _ _ _ _ (df_columns_Ok _ _ _ (proj2 (proj2 He2)))).
  assert (Hwf2 : wf_frame (drop_column "Churn" (drop_column "customerID" f)))
    by now do 2 apply wf_drop_column.
  destruct (update_step _ _ _ _ "TotalCharges"
              (λ v, fillna 0 (to_numeric parse_number v)) He2 Hwf2)
    as (s3 & Hr3 & He3).
  { intros v. now rewrite length_fillna, length_to_numeric. }
  rewrite (bind_Ok _ _ _ _ _ Hr3).
  destruct (replace_loop_run replace_cols _ _ _ _ He3) as (s4 & Hr4 & He4).
  { apply wf_map_column; [|done].
    intros v. now rewrite length_fillna, length_to_numeric. }
  rewrite (bind_Ok _ _ _ _ _ Hr4).
  exists r2, s4. split; [done|].
  now rewrite <- clean_steps_frame.
Qed.

End CleanDataRun.

(** ** Normalisation as a function of the frame *)

Section CleanFrameFacts.

Variable parse_number : string → option Q.

Lemma coerce_idem v :
  fillna 0 (to_numeric parse_number (fillna 0 (to_numeric parse_number v)))
  = fillna 0 (to_numeric parse_number v).
Proof.
  unfold fillna, to_numeric. rewrite !map_map. apply map_ext.
  intros [x|q|]; simpl; try done. now destruct (parse_number x).
Qed.

Lemma clean_column_idem n v :
  clean_column parse_number n (clean_column parse_number n v)
  = clean_column parse_number n v.
Proof.
  unfold clean_column. destruct (String.eqb n "TotalCharges").
  - apply coerce_idem.
  - destruct (existsb (String.eqb n) replace_cols); [|done].
    apply replace_comm_idem.
Qed.

Lemma length_clean_column n v :
  length (clean_column parse_number n v) = length v.
Proof.
  unfold clean_column. destruct (String.eqb n "TotalCharges").
  - now rewrite length_fillna, length_to_numeric.
  - destruct (existsb (String.eqb n) replace_cols); [|done].
    now rewrite !length_replace.
Qed.

Lemma filter_map_commute {A} (P : A → Prop) `{∀ x, Decision (P x)}
    (F : A → A) (l : list A) :
  (∀ x, P (F x) ↔ P x) → filter P (map F l) = map F (filter P l).
Proof.
  intros HF. induction l as [|x l IH]; [done|]. simpl.
  rewrite !filter_cons.
  destruct (decide (P (F x))) as [Hp|Hp], (decide (P x)) as [Hq|Hq];
    simpl; rewrite ?IH; try done.
  - exfalso. apply Hq, HF, Hp.
  - exfalso. apply Hp, HF, Hq.
Qed.

Lemma clean_frame_idem f :
  clean_frame parse_number (clean_frame parse_number f) = clean_frame parse_number f.
Proof.
  unfold clean_frame. cbn [nrows cols]. f_equal.
  rewrite filter_map_commute by done.
  rewrite list_filter_filter_l by done.
  rewrite map_map. apply map_ext. intros [n v]. cbn [fst snd].
  now rewrite clean_column_idem.
Qed.

Lemma wf_clean_frame f : wf_frame f → wf_frame (clean_frame parse_number f).
Proof.
  intros [Hnd Hl]. split.
  - unfold columns, clean_frame. cbn [cols]. rewrite map_map. cbn [fst].
    eapply sublist_NoDup; [exact Hnd | apply (fmap_sublist fst), sublist_filter].
  - unfold clean_frame. cbn [cols nrows]. apply Forall_map.
    rewrite Forall_forall in Hl |- *. intros [n v] Hc.
    apply list_elem_of_filter in Hc as [_ Hc]. cbn [snd].
    rewrite length_clean_column. exact (Hl _ Hc).
Qed.

Lemma assoc_clean_frame f n v :
  assoc n (cols f) = Some v → n ≠ "customerID" → n ≠ "Churn" →
  assoc n (cols (clean_frame parse_number f)) = Some (clean_column parse_number n v).
Proof.
  intros Hv H1 H2. unfold clean_frame. cbn [cols].
  destruct f as [k cs]. cbn [cols] in *.
  induction cs as [|[m w] cs IH]; [done|].
  cbn [assoc] in Hv. rewrite filter_cons. cbn [fst].
  destruct (String.eqb_spec m n) as [->|Hne].
  - injection Hv as ->. rewrite decide_True by done.
    cbn [map assoc fst snd]. now rewrite String.eqb_refl.
  - case_decide; [|auto].
    cbn [map assoc fst snd]. apply String.eqb_neq in Hne. rewrite Hne. auto.
Qed.

End CleanFrameFacts.

(** A one-row frame built from a dict is well formed. *)
Lemma wf_frame_of_record (d : list (string * cell)) :
  NoDup (map fst d) → wf_frame (frame_of_record d).
Proof.
  intros Hnd. split.
  - unfold columns, frame_of_record. cbn [cols]. rewrite map_map. exact Hnd.
  - unfold frame_of_record. cbn [cols nrows]. apply Forall_map, Forall_forall. done.
Qed.

Lemma demo_table_wf : wf_frame Demo.table.
Proof. apply (bool_decide_unpack (wf_frame Demo.table)). vm_compute. exact I. Qed.

(** ** Claims about [clean_data] *)

(** C3. Normalisation is idempotent: cleaning the cleaned table yields a
    table with exactly the content of the cleaned table. *)
Theorem clean_data_idempotent parse (s : list DataFrame) r f :
  s !! r = Some f → wf_frame f →
  ∃ r1 s1 r2 s2 g,
    clean_data parse r s = Ok (r1, s1) ∧ s1 !! r1 = Some g
    ∧ clean_data parse r1 s1 = Ok (r2, s2) ∧ s2 !! r2 = Some g.
Proof.
  intros Hf Hwf.
  destruct (clean_data_run parse s r f Hf Hwf) as (r1 & s1 & Hrun1 & He1).
  pose proof He1 as (_ & _ & Hg1).
  destruct (clean_data_run parse s1 r1 _ Hg1 (wf_clean_frame parse f Hwf))
    as (r2 & s2 & Hrun2 & He2).
  pose proof He2 as (_ & _ & Hg2). rewrite clean_frame_idem in Hg2.
  now exists r1, s1, r2, s2, (clean_frame parse f).
Qed.

Lemma clean_data_idempotent_witness :
  ∃ r1 s1 r2 s2 g,
    clean_data Decimal.parse 0 [Demo.table] = Ok (r1, s1) ∧ s1 !! r1 = Some g
    ∧ clean_data Decimal.parse r1 s1 = Ok (r2, s2) ∧ s2 !! r2 = Some g.
Proof.
  apply (clean_data_idempotent Decimal.parse [Demo.table] 0 Demo.table);
    [reflexivity | exact demo_table_wf].
Defined.

(** C6. When the table has a [TotalCharges] column, every value of the
    cleaned column is a number: text that does not parse and missing
    values become 0, text that parses becomes its number, numbers stay.
    The call returns; nothing is raised. *)
Theorem total_charges_coerced parse (s : list DataFrame) r f v :
  s !! r = Some f → wf_frame f → assoc "TotalCharges" (cols f) = Some v →
  ∃ r' s' g v',
    clean_data parse r s = Ok (r', s') ∧ s' !! r' = Some g
    ∧ assoc "TotalCharges" (cols g) = Some v' ∧ length v' = length v
    ∧ ∀ i c, v !! i = Some c →
        ∃ q, v' !! i = Some (CNum q)
             ∧ (∀ x, c = CStr x → parse x = None → q = 0%Q)
             ∧ (∀ x q0, c = CStr x → parse x = Some q0 → q = q0)
             ∧ (c = CNaN → q = 0%Q)
             ∧ (∀ q0, c = CNum q0 → q = q0).
Proof.
  intros Hf Hwf Hv.
  destruct (clean_data_run parse s r f Hf Hwf) as (r' & s' & Hrun & He).
  pose proof He as (_ & _ & Hg).
  exists r', s', (clean_frame parse f), (fillna 0 (to_numeric parse v)).
  split; [done|]. split; [done|]. split; [|split].
  - rewrite (assoc_clean_frame parse f _ v Hv) by done.
    unfold clean_column. now rewrite String.eqb_refl.
  - now rewrite length_fillna, length_to_numeric.
  - intros i c Hc. unfold fillna, to_numeric. rewrite map_map.
    change (map ?h v) with (h <$> v). rewrite list_lookup_fmap, Hc. simpl.
    destruct c as [x|q|]; simpl.
    + destruct (parse x) as [q|] eqn:Hp; eexists; (split; [reflexivity|]);
        repeat split; intros; congruence.
    + eexists; split; [reflexivity|]. repeat split; intros; congruence.
    + eexists; split; [reflexivity|]. repeat split; intros; congruence.
Qed.

Lemma total_charges_coerced_witness :
  ∃ r' s' g v',
    clean_data Decimal.parse 0 [Demo.table] = Ok (r', s') ∧ s' !! r' = Some g
    ∧ assoc "TotalCharges" (cols g) = Some v'
    ∧ length v' = length [CStr "95.0"; CStr " "; CNaN]
    ∧ ∀ i c, [CStr "95.0"; CStr " "; CNaN] !! i = Some c →
        ∃ q, v' !! i = Some (CNum q)
             ∧ (∀ x, c = CStr x → Decimal.parse x = None → q = 0%Q)
             ∧ (∀ x q0, c = CStr x → Decimal.parse x = Some q0 → q = q0)
             ∧ (c = CNaN → q = 0%Q)
             ∧ (∀ q0, c = CNum q0 → q = q0).
Proof.
  apply (total_charges_coerced Decimal.parse [Demo.table] 0 Demo.table);
    [reflexivity | exact demo_table_wf | reflexivity].
Defined.

(** ** Running [predict_batch] *)

Lemma bind_inv {A B} (m : St A) (k : A → St B) s b :
  (m ≫= k) s = Ok b → ∃ a s1, m s = Ok (a, s1) ∧ k a s1 = Ok b.
Proof.
  unfold mbind, St_bind. destruct (m s) as [[a s1]|]; [eauto | done].
Qed.

Lemma lift_inv {A} (o : outcome A) s a s' :
  lift o s = Ok (a, s') → o = Ok a ∧ s' = s.
Proof. unfold lift. destruct o; [|done]. intros [= -> ->]. done. Qed.

Lemma mret_inv {A} (a b : A) (s s' : list DataFrame) :
  mret (M := St) a s = Ok (b, s') → b = a ∧ s' = s.
Proof. intros [= -> ->]. done. Qed.

Lemma df_setitem_inv r name v s u s' :
  df_setitem r name v s = Ok (u, s') →
  ∃ f, s !! r = Some f ∧ length v = nrows f ∧ s' = <[r := set_column name v f]> s.
Proof.
  unfold df_setitem. intros H. apply bind_inv in H as (f & s1 & Hl & H).
  unfold df_load in Hl. destruct (s !! r) as [g|] eqn:Hg; [|done].
  injection Hl as <- <-.
  destruct (length v =? nrows g)%nat eqn:E; [|done].
  unfold df_store in H. case_decide; [|done]. injection H as <-.
  apply Nat.eqb_eq in E. eauto.
Qed.

Lemma nrows_set_column name v f : nrows (set_column name v f) = nrows f.
Proof. unfold set_column. now destruct (has_column name f). Qed.

Lemma assoc_app_r name cs v :
  assoc name cs = None → assoc name (cs ++ [(name, v)]) = Some v.
Proof.
  induction cs as [|[n w] cs IH]; simpl.
  - now rewrite String.eqb_refl.
  - destruct (String.eqb n name); [done | auto].
Qed.

Lemma assoc_set_column name v f : assoc name (cols (set_column name v f)) = Some v.
Proof.
  unfold set_column, has_column. case_bool_decide as Hc; cbn [cols].
  - destruct f as [k cs]. unfold columns in Hc. cbn [cols] in *.
    induction cs as [|[n w] cs IH]; [now apply elem_of_nil in Hc|].
    cbn [map fst assoc]. destruct (String.eqb n name) eqn:E.
    + cbn [assoc fst]. now rewrite String.eqb_refl.
    + cbn [assoc fst]. rewrite E. apply IH.
      cbn [map fst] in Hc. apply elem_of_cons in Hc as [->|Hc]; [|done].
      now rewrite String.eqb_refl in E.
  - apply assoc_app_r. now apply assoc_None.
Qed.

Section PredictBatchRun.

Variable parse_number : string → option Q.
Variable model : Pipeline.

(** What a successful call of [predict_batch] has done. *)
Lemma predict_batch_inv (s : list DataFrame) r f include_shap res clean probs agg s' :
  s !! r = Some f → wf_frame f →
  predict_batch parse_number model r include_shap s
    = Ok ((res, clean, probs, agg), s') →
  ∃ s1 P,
    clean_data parse_number r s = Ok (clean, s1)
    ∧ extends s clean (clean_frame parse_number f) s1
    ∧ model_predict_proba model (clean_frame parse_number f) = Ok P
    ∧ column_at 1 P = Ok probs
    ∧ length probs = nrows f
    ∧ res = length s1
    ∧ s' = s1 ++ [set_column "Risk_Level" (map risk_level probs)
                    (set_column "Churn_Probability" (map CNum probs) f)]
    ∧ (if include_shap && existsb id (map (Qltb 0.6) probs)
       then ∃ high_risk_data,
           df_mask (map (Qltb 0.6) probs) (clean_frame parse_number f)
             = Ok high_risk_data
           ∧ calculate_batch_shap_aggregate model high_risk_data = Ok agg
       else agg = None).
Proof.
  intros Hf Hwf H. unfold predict_batch in H.
  destruct (clean_data_run parse_number s r f Hf Hwf) as (r1 & s1 & Hrun & He).
  pose proof He as (_ & _ & Hg).
  rewrite (bind_Ok _ _ _ _ _ Hrun) in H.
  rewrite (bind_Ok _ _ _ _ _ (df_load_Ok _ _ _ Hg)) in H.
  apply bind_inv in H as (P & ? & HP & H). apply lift_inv in HP as [HP ->].
  apply bind_inv in H as (probs0 & ? & Hprobs & H). apply lift_inv in Hprobs as [Hprobs ->].
  apply bind_inv in H as (preds & ? & Hpreds & H). apply lift_inv in Hpreds as [_ ->].
  pose proof (extends_old _ _ _ _ _ _ He Hf) as Hf1.
  rewrite (bind_Ok _ _ _ _ _ (df_copy_Ok _ _ _ Hf1)) in H.
  apply bind_inv in H as ([] & s2 & Hset1 & H).
  apply df_setitem_inv in Hset1 as (f1 & Hl1 & Hlen1 & ->).
  rewrite lookup_app_r, Nat.sub_diag in Hl1 by lia. injection Hl1 as <-.
  apply bind_inv in H as ([] & s3 & Hset2 & H).
  apply df_setitem_inv in Hset2 as (f2 & Hl2 & Hlen2 & ->).
  rewrite list_lookup_insert_eq in Hl2 by (rewrite length_app; simpl; lia).
  injection Hl2 as <-.
  rewrite list_insert_insert_eq in H.
  rewrite insert_app_r_alt, Nat.sub_diag in H by lia. cbn [insert list_insert] in H.
  apply bind_inv in H as (agg0 & s4 & Hagg & H).
  apply mret_inv in H as [[= -> -> -> ->] ->].
  rewrite length_map in Hlen1.
  assert (s4 = s1 ++ [set_column "Risk_Level" (map risk_level probs0)
                        (set_column "Churn_Probability" (map CNum probs0) f)]
          ∧ (if include_shap && existsb id (map (Qltb 0.6) probs0)
             then ∃ high_risk_data,
                 df_mask (map (Qltb 0.6) probs0) (clean_frame parse_number f)
                   = Ok high_risk_data
                 ∧ calculate_batch_shap_aggregate model high_risk_data = Ok agg0
             else agg0 = None)) as [-> Hspec].
  { destruct include_shap; cbn [andb].
    - destruct (existsb id (map (Qltb 0.6) probs0)).
      + apply bind_inv in Hagg as (hr & s5 & Hhr & Hagg).
        apply lift_inv in Hhr as [Hhr ->]. apply lift_inv in Hagg as [Hagg ->].
        split; [done | eauto].
      + apply mret_inv in Hagg as [-> ->]. done.
    - apply mret_inv in Hagg as [-> ->]. done. }
  exists s1, P. repeat (split; [done|]). done.
Qed.

End PredictBatchRun.

(** ** Thresholds *)

Lemma Qltb_lt a b : Qltb a b = true ↔ (a < b)%Q.
Proof.
  unfold Qltb. rewrite negb_true_iff. split.
  - intros H. apply Qnot_le_lt. intros Hle. apply Qle_bool_iff in Hle. congruence.
  - intros H. destruct (Qle_bool b a) eqn:E; [|done].
    apply Qle_bool_iff in E. now apply Qlt_not_le in H.
Qed.

Lemma Qltb_ge a b : Qltb a b = false ↔ ¬ (a < b)%Q.
Proof. rewrite <- Qltb_lt. now destruct (Qltb a b). Qed.

Lemma risk_level_High p : risk_level p = CStr "High" ↔ (0.6 < p)%Q.
Proof.
  rewrite <- Qltb_lt. unfold risk_level. destruct (Qltb 0.6 p); split; done.
Qed.

Lemma risk_level_Low p : risk_level p = CStr "Low" ↔ ¬ (0.6 < p)%Q.
Proof.
  rewrite <- Qltb_ge. unfold risk_level. destruct (Qltb 0.6 p); split; done.
Qed.

Lemma lookup_map {A B} (h : A → B) (l : list A) i : map h l !! i = h <$> l !! i.
Proof. apply (list_lookup_fmap h). Qed.

Lemma assoc_set_column_ne name name' v f :
  name' ≠ name → assoc name' (cols (set_column name v f)) = assoc name' (cols f).
Proof.
  intros Hne. unfold set_column. destruct (has_column name f); cbn [cols].
  - destruct f as [k cs]. cbn [cols]. induction cs as [|[n w] cs IH]; [done|].
    cbn [map assoc fst]. destruct (String.eqb_spec n name) as [->|Hn]; cbn [assoc].
    + apply String.eqb_neq in Hne. rewrite String.eqb_sym in Hne.
      now rewrite Hne.
    + now rewrite IH.
  - destruct f as [k cs]. cbn [cols]. induction cs as [|[n w] cs IH]; cbn [app assoc].
    + apply String.eqb_neq in Hne. rewrite String.eqb_sym in Hne. now rewrite Hne.
    + now rewrite IH.
Qed.

Lemma select_none {A} (mask : list bool) (l : list A) :
  Forall (λ b, b = false) mask → select mask l = [].
Proof.
  intros H. revert l. induction H as [|b mask -> _ IH]; intros [|x l]; simpl; auto.
Qed.

Lemma filter_true_none (mask : list bool) :
  Forall (λ b, b = false) mask → filter (λ b, b = true) mask = [].
Proof.
  induction 1 as [|b mask -> _ IH]; [done|].
  rewrite filter_cons_False by done. exact IH.
Qed.

Lemma column_at_inv j (P : list (list Q)) l :
  column_at j P = Ok l →
  length l = length P
  ∧ ∀ i row, P !! i = Some row → ∃ p, row !! j = Some p ∧ l !! i = Some p.
Proof.
  revert l. induction P as [|r0 P IH]; intros l H; cbn [column_at] in H.
  - injection H as <-. split; [done|]. intros i row Hi. done.
  - unfold mbind, outcome_bind, index in H.
    destruct (r0 !! j) as [x|] eqn:Hx; [|done].
    destruct (column_at j P) as [xs|]; [|done].
    injection H as <-. destruct (IH xs eq_refl) as [Hlen Hrows].
    split; [cbn; congruence|].
    intros [|i] row Hi; cbn in Hi |- *.
    + injection Hi as <-. eauto.
    + auto.
Qed.

(** ** Claims about the batch path *)

(** C10. [clean_data] works on a copy: the object it returns is new, and
    every object of the store it was called in, its argument included,
    holds what it held before. In [predict_batch] the augmented table is
    therefore the caller's table, as it was passed in, with the two result
    columns set. *)
Theorem clean_data_leaves_argument parse model (s : list DataFrame) r f :
  s !! r = Some f → wf_frame f →
  (∃ r' s',
      clean_data parse r s = Ok (r', s') ∧ s !! r' = None ∧ r' ≠ r
      ∧ ∀ l g, s !! l = Some g → s' !! l = Some g)
  ∧ (∀ include_shap res clean probs agg s',
       predict_batch parse model r include_shap s
         = Ok ((res, clean, probs, agg), s') →
       s' !! r = Some f ∧ s !! res = None
       ∧ s' !! res = Some (set_column "Risk_Level" (map risk_level probs)
                             (set_column "Churn_Probability" (map CNum probs) f))).
Proof.
  intros Hf Hwf. split.
  - destruct (clean_data_run parse s r f Hf Hwf) as (r' & s' & Hrun & He).
    exists r', s'. split; [done|]. pose proof He as (Hp & Hr & _).
    apply lookup_lt_Some in Hf as Hlt. split; [|split].
    + now apply lookup_ge_None.
    + lia.
    + intros l g Hl. exact (extends_old _ _ _ _ _ _ He Hl).
  - intros inc res clean probs agg s' H.
    destruct (predict_batch_inv parse model s r f _ _ _ _ _ _ Hf Hwf H)
      as (s1 & P & _ & He & _ & _ & _ & -> & -> & _).
    pose proof He as (Hp & _ & _). apply prefix_length in Hp.
    split; [|split].
    + apply lookup_app_l_Some. exact (extends_old _ _ _ _ _ _ He Hf).
    + apply lookup_ge_None. lia.
    + rewrite lookup_app_r by lia. now rewrite Nat.sub_diag.
Qed.

Section BatchClaims.

Variable parse : string → option Q.
Variable model : Pipeline.
Variable series_mean : list cell → outcome Q.
Variable series_mode : list cell → list cell.
Variable format_float : nat → Q → string.
Variable str_cell : cell → string.
Variable str_nat : nat → string.

(** [analyze_high_risk_group] selects the rows above 0.6 and summarises
    them. *)
Lemma analyze_selected df probs a :
  analyze_high_risk_group series_mean series_mode format_float str_cell str_nat
    df probs a
  = (high_risk_df ← df_mask (map (Qltb 0.6) probs) df;
     cohort_summary series_mean series_mode format_float str_cell str_nat
       high_risk_df (nrows df) a).
Proof. reflexivity. Qed.

(** C4. A successful batch call has scored every row of the table: row
    [i] of the results table carries the positive-class probability of
    row [i] of the pipeline's answer on the cleaned table and a tier,
    which is [High] exactly when that probability is strictly above 0.6
    and [Low] otherwise, so [Low] at 0.6 itself. The rows the cohort
    summary is computed from, and the attribution aggregate with them,
    are the rows of the cleaned table tiered [High], no others. *)
Theorem risk_tier_strict_threshold (s : list DataFrame) r f include_shap
    res clean probs agg s' :
  s !! r = Some f → wf_frame f →
  predict_batch parse model r include_shap s = Ok ((res, clean, probs, agg), s') →
  ∃ P g churn tiers mask high_risk_df,
    s' !! clean = Some (clean_frame parse f)
    ∧ model_predict_proba model (clean_frame parse f) = Ok P
    ∧ s' !! res = Some g
    ∧ nrows g = nrows f
    ∧ assoc "Churn_Probability" (cols g) = Some churn
    ∧ assoc "Risk_Level" (cols g) = Some tiers
    ∧ (length P = nrows f ∧ length probs = nrows f ∧ length churn = nrows f
       ∧ length tiers = nrows f ∧ length mask = nrows f)
    ∧ (∀ i, i < nrows f →
         ∃ row p t b,
           P !! i = Some row ∧ row !! 1 = Some p
           ∧ probs !! i = Some p
           ∧ churn !! i = Some (CNum p)
           ∧ tiers !! i = Some t
           ∧ mask !! i = Some b
           ∧ (t = CStr "High" ↔ (0.6 < p)%Q)
           ∧ (t = CStr "Low" ↔ ¬ (0.6 < p)%Q)
           ∧ ((p == 0.6)%Q → t = CStr "Low")
           ∧ (b = true ↔ t = CStr "High"))
    ∧ df_mask mask (clean_frame parse f) = Ok high_risk_df
    ∧ (∀ a,
         analyze_high_risk_group series_mean series_mode format_float str_cell str_nat
           (clean_frame parse f) probs a
         = cohort_summary series_mean series_mode format_float str_cell str_nat
             high_risk_df (nrows f) a)
    ∧ (if include_shap && existsb id mask
       then calculate_batch_shap_aggregate model high_risk_df = Ok agg
       else agg = None).
Proof.
  intros Hf Hwf H.
  destruct (predict_batch_inv parse model s r f _ _ _ _ _ _ Hf Hwf H)
    as (s1 & P & _ & He & HP & Hcol & Hlen & -> & -> & Hagg).
  apply column_at_inv in Hcol as [HlenP Hrows].
  assert (Hmask : df_mask (map (Qltb 0.6) probs) (clean_frame parse f)
                  = Ok (mkDF (length (filter (λ b, b = true) (map (Qltb 0.6) probs)))
                          (map (λ c, (fst c, select (map (Qltb 0.6) probs) (snd c)))
                             (cols (clean_frame parse f))))).
  { unfold df_mask. rewrite length_map, Hlen. cbn [nrows clean_frame].
    now rewrite Nat.eqb_refl. }
  eexists P, _, (map CNum probs), (map risk_level probs), (map (Qltb 0.6) probs), _.
  split; [apply lookup_app_l_Some; apply He|].
  split; [exact HP|].
  split; [rewrite lookup_app_r by lia; now rewrite Nat.sub_diag|].
  split; [now rewrite !nrows_set_column|].
  split; [rewrite assoc_set_column_ne by done; apply assoc_set_column|].
  split; [apply assoc_set_column|].
  split; [rewrite !length_map; repeat split; congruence|].
  split; [|split; [exact Hmask|split]].
  - intros i Hi.
    destruct (lookup_lt_is_Some_2 P i) as [row Hrow]; [lia|].
    destruct (Hrows i row Hrow) as (p & Hp & Hpi).
    exists row, p, (risk_level p), (Qltb 0.6 p).
    rewrite !lookup_map, Hpi. cbn [fmap option_fmap option_map].
    repeat (split; [done|]).
    split; [apply risk_level_High|].
    split; [apply risk_level_Low|].
    split.
    + intros Hp6. apply risk_level_Low. intros Hlt. rewrite Hp6 in Hlt.
      exact (Qlt_irrefl _ Hlt).
    + rewrite risk_level_High. apply Qltb_lt.
  - intros a. rewrite analyze_selected, Hmask. reflexivity.
  - destruct (include_shap && existsb id (map (Qltb 0.6) probs)); [|exact Hagg].
    destruct Hagg as (hr & Hhr & Hcalc). rewrite Hmask in Hhr.
    injection Hhr as <-. exact Hcalc.
Qed.

(** C7. When no probability of the batch is above 0.6 the cohort summary
    is the fixed sentinel text on very few high-risk customers, returned
    in place of the statistics and without raising. *)
Theorem empty_high_risk_sentinel df probs agg :
  length probs = nrows df →
  Forall (λ p, ¬ (0.6 < p)%Q) probs →
  analyze_high_risk_group series_mean series_mode format_float str_cell str_nat
    df probs agg
  = Ok "Great news! Very few high-risk customers detected.".
Proof.
  intros Hlen Hall. unfold analyze_high_risk_group, df_mask.
  rewrite length_map. apply Nat.eqb_eq in Hlen. rewrite Hlen.
  assert (Hmask : Forall (λ b, b = false) (map (Qltb 0.6) probs)).
  { apply Forall_map. eapply Forall_impl; [exact Hall|].
    intros p Hp. now apply Qltb_ge. }
  rewrite (filter_true_none _ Hmask). reflexivity.
Qed.

End BatchClaims.

Example predict_batch_demo :
  predict_batch Decimal.parse Demo.model 0 true [Demo.table]
  = Ok ((4, 3, [0.8; 0.2; 0.8]%Q,
         Some (mkAggregate
                 [("Contract", 5000 # 20000); ("tenure", 0 # 20000);
                  ("TotalCharges", 0 # 20000)]%Q
                 [5000 # 20000; 0 # 20000; 0 # 20000; 7500 # 20000]%Q
                 ["Contract"; "tenure"; "TotalCharges"])),
        [Demo.table; Demo.table;
         drop_column "customerID" Demo.table;
         clean_frame Decimal.parse Demo.table;
         set_column "Risk_Level" [CStr "High"; CStr "Low"; CStr "High"]
           (set_column "Churn_Probability" [CNum 0.8; CNum 0.2; CNum 0.8] Demo.table)]).
Proof. vm_compute. reflexivity. Qed.

Example predict_batch_boundary :
  predict_batch Decimal.parse Boundary.model 0 true [Boundary.table]
  = Ok ((3, 2, [0.8; 0.6; 0.5; 0.2]%Q,
         Some (mkAggregate [("Contract", 0.30)]%Q [0.30]%Q
                 ["Contract"; "tenure"; "MonthlyCharges"])),
        [Boundary.table; Boundary.table;
         clean_frame Decimal.parse Boundary.table;
         set_column "Risk_Level" [CStr "High"; CStr "Low"; CStr "Low"; CStr "Low"]
           (set_column "Churn_Probability" [CNum 0.8; CNum 0.6; CNum 0.5; CNum 0.2]
              Boundary.table)]).
Proof. vm_compute. reflexivity. Qed.

Lemma boundary_table_wf : wf_frame Boundary.table.
Proof. apply (bool_decide_unpack (wf_frame Boundary.table)). vm_compute. exact I. Qed.

(** ** The stable descending sort *)

Section SortReverse.

Context {A : Type} (key : A → Q).

Lemma insert_desc_perm x l : insert_desc key x l ≡ₚ x :: l.
Proof.
  induction l as [|y l IH]; simpl; [done|].
  destruct (Qltb (key x) (key y)); [|done].
  rewrite IH. apply Permutation_swap.
Qed.

Lemma sort_reverse_perm l : sort_reverse key l ≡ₚ l.
Proof.
  induction l as [|x l IH]; simpl; [done|].
  rewrite insert_desc_perm. now rewrite IH.
Qed.

Lemma insert_desc_map {B} (h : B → A) x l :
  map h (insert_desc (λ b, key (h b)) x l) = insert_desc key (h x) (map h l).
Proof.
  induction l as [|y l IH]; simpl; [done|].
  destruct (Qltb (key (h x)) (key (h y))); simpl; [now rewrite IH | done].
Qed.

Lemma sort_reverse_map {B} (h : B → A) l :
  map h (sort_reverse (λ b, key (h b)) l) = sort_reverse key (map h l).
Proof.
  induction l as [|x l IH]; simpl; [done|].
  fold (sort_reverse (λ b, key (h b)) l). fold (sort_reverse key (map h l)).
  now rewrite insert_desc_map, IH.
Qed.

(** Entries carry a position; [before] is the order of the result. *)
Variable pos : A → nat.

Local Abbreviation lt_pos := (λ x y : A, pos x < pos y).
Local Abbreviation before := (before key pos).

Lemma before_le x y z : (key y <= key x)%Q → pos x < pos z → before y z → before x z.
Proof.
  intros Hyx Hxz [Hzy|[Heq Hyz]].
  - left. eapply Qlt_le_trans; eauto.
  - apply Qle_lt_or_eq in Hyx as [Hlt|Heq'].
    + left. rewrite <- Heq. exact Hlt.
    + right. split; [|done]. now rewrite <- Heq', Heq.
Qed.

Lemma insert_desc_sorted x l :
  Forall (lt_pos x) l → StronglySorted before l →
  StronglySorted before (insert_desc key x l).
Proof.
  intros Hpos Hs. induction Hs as [|y l Hs IH Hy]; simpl.
  - repeat constructor.
  - apply Forall_cons in Hpos as [Hxy Hpos].
    destruct (Qltb (key x) (key y)) eqn:E.
    + apply Qltb_lt in E. constructor; [auto|].
      rewrite insert_desc_perm. constructor; [now left | done].
    + apply Qltb_ge in E. apply Qnot_lt_le in E.
      constructor; [now constructor|]. constructor.
      * apply Qle_lt_or_eq in E as [Hlt|Heq]; [now left | right].
        split; [now symmetry | done].
      * rewrite Forall_forall in Hy, Hpos |- *. intros z Hz.
        eapply before_le; [exact E | exact (Hpos z Hz) | exact (Hy z Hz)].
Qed.

Lemma sort_reverse_sorted l :
  StronglySorted lt_pos l → StronglySorted before (sort_reverse key l).
Proof.
  induction 1 as [|x l Hs IH Hx]; simpl; [constructor|].
  apply insert_desc_sorted; [|exact IH].
  fold (sort_reverse key l). now rewrite sort_reverse_perm.
Qed.

End SortReverse.

(** ** Rankings by position *)

Lemma StronglySorted_map_on {A B} (R : A → A → Prop) (R' : B → B → Prop)
    (P : A → Prop) (h : A → B) (l : list A) :
  (∀ a b, P a → P b → R a b → R' (h a) (h b)) →
  Forall P l → StronglySorted R l → StronglySorted R' (map h l).
Proof.
  intros HR HP Hs. induction Hs as [|a l Hs IH Ha]; simpl; [constructor|].
  apply Forall_cons in HP as [Hpa HP]. constructor; [auto|].
  apply Forall_map. rewrite Forall_forall in Ha, HP |- *.
  intros b Hb. apply HR; auto.
Qed.

Lemma StronglySorted_mono {A} (R R' : A → A → Prop) (l : list A) :
  (∀ a b, R a b → R' a b) → StronglySorted R l → StronglySorted R' l.
Proof.
  intros HR Hs. rewrite <- (map_id l).
  eapply (StronglySorted_map_on R R' (λ _, True) id); eauto.
  now apply Forall_forall.
Qed.

Lemma enumerate_sorted {A} (l : list A) k :
  StronglySorted (λ p q : nat * A, fst p < fst q) (zip (seq k (length l)) l).
Proof.
  revert k. induction l as [|x l IH]; intros k; simpl; constructor; [apply IH|].
  apply Forall_forall. intros [i y] Hp. simpl.
  apply (list_elem_of_fmap_2 fst) in Hp. rewrite fst_zip in Hp by (now rewrite length_seq).
  simpl in Hp. apply list_elem_of_In, in_seq in Hp. lia.
Qed.

Lemma enumerate_lookup {A} (l : list A) k i x :
  (i, x) ∈ zip (seq k (length l)) l → (k ≤ i)%nat ∧ l !! (i - k) = Some x.
Proof.
  revert k. induction l as [|y l IH]; intros k; simpl; [intros H; now apply elem_of_nil in H|].
  intros [[= -> ->]|H]%elem_of_cons.
  - split; [lia|]. now rewrite Nat.sub_diag.
  - apply IH in H as [Hk Hl]. split; [lia|].
    replace (i - k) with (S (i - S k)) by lia. exact Hl.
Qed.

Lemma sort_reverse_ranked {A} (key : A → Q) (d : A) (l : list A) :
  ∃ order,
    order ≡ₚ seq 0 (length l)
    ∧ StronglySorted (precedes (map key l)) order
    ∧ sort_reverse key l = pick d l order.
Proof.
  set (L := zip (seq 0 (length l)) l).
  set (sorted := sort_reverse (λ p : nat * A, key (snd p)) L).
  assert (HL1 : map fst L = seq 0 (length l))
    by (apply (fst_zip (seq 0 (length l)) l); now rewrite length_seq).
  assert (HL2 : map snd L = l)
    by (apply (snd_zip (seq 0 (length l)) l); now rewrite length_seq).
  assert (Hperm : sorted ≡ₚ L) by apply sort_reverse_perm.
  assert (Hin : Forall (λ p, l !! fst p = Some (snd p)) sorted).
  { rewrite Hperm. apply Forall_forall. intros [i x] Hp.
    apply enumerate_lookup in Hp as [_ Hp]. now rewrite Nat.sub_0_r in Hp. }
  exists (map fst sorted). split; [|split].
  - rewrite <- HL1. now apply (fmap_Permutation fst).
  - eapply (StronglySorted_map_on _ _ _ fst); [|exact Hin|].
    2: { apply (sort_reverse_sorted (λ p : nat * A, key (snd p)) fst), enumerate_sorted. }
    intros [i x] [j y] Hi Hj. simpl in Hi, Hj. unfold before, precedes. simpl.
    rewrite (nth_lookup_Some (map key l) i 0%Q (key x))
      by (now rewrite lookup_map, Hi).
    rewrite (nth_lookup_Some (map key l) j 0%Q (key y))
      by (now rewrite lookup_map, Hj).
    done.
  - unfold pick. rewrite map_map.
    rewrite <- HL2 at 1. rewrite <- (sort_reverse_map key snd). fold sorted.
    apply map_ext_in. intros [i x] Hp. simpl.
    rewrite Forall_forall in Hin. apply list_elem_of_In in Hp.
    symmetry. apply nth_lookup_Some. exact (Hin _ Hp).
Qed.

Lemma precedes_asym v i j : precedes v i j → precedes v j i → False.
Proof.
  intros [H1|[E1 L1]] [H2|[E2 L2]].
  - exact (Qlt_irrefl _ (Qlt_trans _ _ _ H1 H2)).
  - rewrite E2 in H1. exact (Qlt_irrefl _ H1).
  - rewrite E1 in H2. exact (Qlt_irrefl _ H2).
  - lia.
Qed.

Lemma ranking_unique v (o1 o2 : list nat) :
  o1 ≡ₚ o2 → StronglySorted (precedes v) o1 → StronglySorted (precedes v) o2 →
  o1 = o2.
Proof.
  intros Hp H1 H2. apply (StronglySorted_unique_strong (precedes v)); try done.
  intros i j _ _ Hij Hji. destruct (precedes_asym v i j Hij Hji).
Qed.

Lemma slice_to_nat {A} (n : nat) (l : list A) : slice_to (Z.of_nat n) l = take n l.
Proof.
  unfold slice_to. destruct (Z.ltb_spec (Z.of_nat n) 0); [lia|].
  now rewrite Nat2Z.id.
Qed.

(** ** Claims about rankings *)

(** C8. [get_top_features] pairs names with values, orders the pairs by
    descending magnitude of the value, keeps the original order among
    equal magnitudes, and returns the first [top_n] of them. The order is
    the only one with these properties, so equal inputs give equal
    outputs. *)
Theorem top_features_ranking (shap_values : list Q) (feature_names : list string) (n : nat) :
  ∃ order,
    order ≡ₚ seq 0 (length (zip feature_names shap_values))
    ∧ StronglySorted (ranks_before (map snd (zip feature_names shap_values))) order
    ∧ get_top_features shap_values feature_names (Z.of_nat n)
      = take n (pick ("", 0%Q) (zip feature_names shap_values) order)
    ∧ ∀ order',
        order' ≡ₚ seq 0 (length (zip feature_names shap_values)) →
        StronglySorted (ranks_before (map snd (zip feature_names shap_values))) order' →
        order' = order.
Proof.
  destruct (sort_reverse_ranked (λ x : string * Q, Qabs (snd x)) ("", 0%Q)
              (zip feature_names shap_values)) as (order & Hp & Hs & Heq).
  assert (Hs' : StronglySorted (ranks_before (map snd (zip feature_names shap_values))) order).
  { unfold ranks_before. now rewrite map_map. }
  exists order. split; [done|]. split; [done|]. split.
  - unfold get_top_features. now rewrite slice_to_nat, Heq.
  - intros order' Hp' Hs''. eapply ranking_unique; [|exact Hs''|exact Hs'].
    now rewrite Hp, Hp'.
Qed.

Example top_features_tie :
  get_top_features [0.1; -0.5; 0.5; 0.2]%Q ["a"; "b"; "c"; "d"] 3
  = [("b", -0.5); ("c", 0.5); ("d", 0.2)]%Q.
Proof. vm_compute. reflexivity. Qed.

(** ** The claims at the reference instances *)

Lemma clean_data_leaves_argument_witness :
  (∃ r' s',
      clean_data Decimal.parse 0 [Demo.table] = Ok (r', s')
      ∧ [Demo.table] !! r' = None ∧ r' ≠ 0
      ∧ ∀ l g, [Demo.table] !! l = Some g → s' !! l = Some g)
  ∧ (∀ include_shap res clean probs agg s',
       predict_batch Decimal.parse Demo.model 0 include_shap [Demo.table]
         = Ok ((res, clean, probs, agg), s') →
       s' !! 0 = Some Demo.table ∧ [Demo.table] !! res = None
       ∧ s' !! res = Some (set_column "Risk_Level" (map risk_level probs)
                             (set_column "Churn_Probability" (map CNum probs)
                                Demo.table))).
Proof.
  apply (clean_data_leaves_argument Decimal.parse Demo.model [Demo.table] 0 Demo.table);
    [reflexivity | exact demo_table_wf].
Defined.

Lemma risk_tier_strict_threshold_witness :
  ∃ res clean probs agg s',
    predict_batch Decimal.parse Boundary.model 0 true [Boundary.table]
      = Ok ((res, clean, probs, agg), s')
    ∧ probs = [0.8; 0.6; 0.5; 0.2]%Q
    ∧ ∃ P g churn tiers mask high_risk_df,
        s' !! clean = Some (clean_frame Decimal.parse Boundary.table)
        ∧ model_predict_proba Boundary.model (clean_frame Decimal.parse Boundary.table)
          = Ok P
        ∧ s' !! res = Some g
        ∧ nrows g = nrows Boundary.table
        ∧ assoc "Churn_Probability" (cols g) = Some churn
        ∧ assoc "Risk_Level" (cols g) = Some tiers
        ∧ (length P = nrows Boundary.table ∧ length probs = nrows Boundary.table
           ∧ length churn = nrows Boundary.table
           ∧ length tiers = nrows Boundary.table
           ∧ length mask = nrows Boundary.table)
        ∧ (∀ i, i < nrows Boundary.table →
             ∃ row p t b,
               P !! i = Some row ∧ row !! 1 = Some p
               ∧ probs !! i = Some p
               ∧ churn !! i = Some (CNum p)
               ∧ tiers !! i = Some t
               ∧ mask !! i = Some b
               ∧ (t = CStr "High" ↔ (0.6 < p)%Q)
               ∧ (t = CStr "Low" ↔ ¬ (0.6 < p)%Q)
               ∧ ((p == 0.6)%Q → t = CStr "Low")
               ∧ (b = true ↔ t = CStr "High"))
        ∧ df_mask mask (clean_frame Decimal.parse Boundary.table) = Ok high_risk_df
        ∧ (∀ a,
             analyze_high_risk_group Demo.series_mean Demo.series_mode Demo.format_float
               Demo.str_cell Demo.str_nat (clean_frame Decimal.parse Boundary.table)
               probs a
             = cohort_summary Demo.series_mean Demo.series_mode Demo.format_float
                 Demo.str_cell Demo.str_nat high_risk_df (nrows Boundary.table) a)
        ∧ (if true && existsb id mask
           then calculate_batch_shap_aggregate Boundary.model high_risk_df = Ok agg
           else agg = None).
Proof.
  eexists _, _, _, _, _. split; [exact predict_batch_boundary|].
  split; [reflexivity|].
  eapply (risk_tier_strict_threshold Decimal.parse Boundary.model
           Demo.series_mean Demo.series_mode Demo.format_float Demo.str_cell Demo.str_nat
           [Boundary.table] 0 Boundary.table true);
    [reflexivity | exact boundary_table_wf | exact predict_batch_boundary].
Defined.

Lemma empty_high_risk_sentinel_witness :
  analyze_high_risk_group Demo.series_mean Demo.series_mode Demo.format_float
    Demo.str_cell Demo.str_nat Demo.table [0.6; 0.2; 0.5]%Q None
  = Ok "Great news! Very few high-risk customers detected.".
Proof.
  apply (empty_high_risk_sentinel Demo.series_mean Demo.series_mode Demo.format_float
           Demo.str_cell Demo.str_nat Demo.table [0.6; 0.2; 0.5]%Q None).
  - reflexivity.
  - repeat constructor; intros H; vm_compute in H; discriminate.
Defined.

(** ** Means of magnitudes *)

Lemma Qsum_nonneg l : Forall (λ x, (0 <= x)%Q) l → (0 <= Qsum l)%Q.
Proof.
  induction 1 as [|x l Hx _ IH]; simpl; [apply Qle_refl|].
  replace 0%Q with (0 + 0)%Q by reflexivity. now apply Qplus_le_compat.
Qed.

Lemma mean_nonneg l : Forall (λ x, (0 <= x)%Q) l → (0 <= mean l)%Q.
Proof.
  intros H. unfold mean, Qdiv. apply Qmult_le_0_compat; [now apply Qsum_nonneg|].
  apply Qinv_le_0_compat. unfold Qle. simpl. lia.
Qed.

Lemma column_abs_array j (a : list (list Q)) :
  column j (abs_array a) = map (λ row, Qabs (nth j row 0%Q)) a.
Proof.
  unfold column, abs_array. rewrite map_map. apply map_ext. intros row.
  exact (map_nth Qabs row 0%Q j).
Qed.

Lemma ncols_abs_array (a : list (list Q)) : ncols (abs_array a) = ncols a.
Proof. destruct a as [|row a]; simpl; [done | apply length_map]. Qed.

Lemma mean_axis0_abs_nonneg (a : list (list Q)) :
  Forall (λ x, (0 <= x)%Q) (mean_axis0 (abs_array a)).
Proof.
  unfold mean_axis0. apply Forall_map, Forall_forall. intros j _.
  apply mean_nonneg. rewrite column_abs_array. apply Forall_map, Forall_forall.
  intros row _. apply Qabs_nonneg.
Qed.

Lemma aggregate_inv model hr a :
  calculate_batch_shap_aggregate model hr = Ok (Some a) →
  ∃ X sv S,
    preprocessor_transform model hr = Ok X
    ∧ explainer_shap_values model X = Ok sv
    ∧ positive_class sv = Ok S
    ∧ a = mkAggregate
            (slice_to 10 (sort_reverse (λ x, Qabs (snd x))
                            (zip (columns hr) (mean_axis0 (abs_array S)))))
            (mean_axis0 (abs_array S)) (columns hr).
Proof.
  unfold calculate_batch_shap_aggregate. destruct (empty hr); [done|].
  unfold mbind, outcome_bind.
  destruct (preprocessor_transform model hr) as [X|] eqn:HX; [|done].
  destruct (explainer_shap_values model X) as [sv|] eqn:Hsv; [|done].
  destruct (positive_class sv) as [S|] eqn:HS; [|done].
  intros [= <-]. exists X, sv, S. repeat split; done.
Qed.

(** ** The batch aggregate *)

(** C9. The ranked list of the batch aggregate is made of the columns of
    the table passed in and the per-feature means, paired position by
    position and then sorted, so it is only as long as the shorter of the
    two. With an encoder that yields more features than the table has
    columns the names do not belong to the means, and the later means are
    never ranked. On the reference batch the two high-risk rows are encoded
    into four features with the means 1/4, 0, 0 and 3/8; the ranked list
    has three entries, lists [tenure] with the mean 0 of a contract
    indicator and lacks the largest mean, 3/8, which is that of [tenure]. *)
Theorem batch_ranking_pairs_raw_columns :
  (∀ model high_risk_data a,
      calculate_batch_shap_aggregate model high_risk_data = Ok (Some a) →
      agg_feature_names a = columns high_risk_data
      ∧ top_features a
        = slice_to 10 (sort_reverse (λ x, Qabs (snd x))
                         (zip (columns high_risk_data) (mean_shap_values a)))
      ∧ ∃ X sv S,
          preprocessor_transform model high_risk_data = Ok X
          ∧ explainer_shap_values model X = Ok sv
          ∧ positive_class sv = Ok S
          ∧ length (mean_shap_values a) = ncols S)
  ∧ ∃ res clean probs a s' high_risk_data,
      predict_batch Decimal.parse Demo.model 0 true [Demo.table]
        = Ok ((res, clean, probs, Some a), s')
      ∧ probs = [0.8; 0.2; 0.8]%Q
      ∧ df_mask (map (Qltb 0.6) probs) (clean_frame Decimal.parse Demo.table)
        = Ok high_risk_data
      ∧ calculate_batch_shap_aggregate Demo.model high_risk_data = Ok (Some a)
      ∧ columns high_risk_data = ["Contract"; "tenure"; "TotalCharges"]
      ∧ preprocessor_transform Demo.model high_risk_data
        = Ok [[1; 0; 0; 1]; [1; 0; 0; 2]]%Q
      ∧ Forall2 Qeq (mean_shap_values a) [1 # 4; 0; 0; 3 # 8]%Q
      ∧ map fst (top_features a) = ["Contract"; "tenure"; "TotalCharges"]
      ∧ Forall2 Qeq (map snd (top_features a)) [1 # 4; 0; 0]%Q
      ∧ length (top_features a) < length (mean_shap_values a)
      ∧ Forall (λ x, (snd x < 3 # 8)%Q) (top_features a).
Proof.
  split.
  - intros model hr a Ha.
    apply aggregate_inv in Ha as (X & sv & S & HX & Hsv & HS & ->).
    cbn [agg_feature_names top_features mean_shap_values].
    split; [done|]. split; [done|]. exists X, sv, S. repeat (split; [done|]).
    unfold mean_axis0. now rewrite length_map, length_seq, ncols_abs_array.
  - eexists _, _, _, _, _, _. split; [exact predict_batch_demo|].
    split; [reflexivity|].
    split; [vm_compute; reflexivity|].
    split; [vm_compute; reflexivity|].
    split; [vm_compute; reflexivity|].
    split; [vm_compute; reflexivity|].
    cbn [mean_shap_values top_features map fst snd length].
    split; [repeat constructor|].
    split; [reflexivity|].
    split; [repeat constructor|].
    split; [lia|].
    repeat constructor.
Qed.

(** ** Single predictions *)

Lemma outcome_bind_inv {A B} (o : outcome A) (k : A → outcome B) b :
  o ≫= k = Ok b → ∃ a, o = Ok a ∧ k a = Ok b.
Proof. destruct o as [a|]; [eauto | done]. Qed.

Lemma index_inv {A} (l : list A) i x : index l i = Ok x → l !! i = Some x.
Proof. unfold index. destruct (l !! i); [congruence | done]. Qed.

Lemma lift_bind {A B} (o : outcome A) (k : A → St B) s :
  (lift o ≫= k) s = match o with Ok a => k a s | Raise e => Raise e end.
Proof. unfold mbind, St_bind, lift. now destruct o. Qed.

Lemma score_inv model cleaned res :
  score model cleaned = Ok res →
  ∃ preds proba row,
    model_predict model cleaned = Ok preds
    ∧ preds !! 0 = Some (prediction res)
    ∧ model_predict_proba model cleaned = Ok proba
    ∧ proba !! 0 = Some row
    ∧ row !! 1 = Some (churn_probability res).
Proof.
  unfold score. intros H.
  apply outcome_bind_inv in H as (preds & Hpreds & H).
  apply outcome_bind_inv in H as (pred & Hpred & H).
  apply outcome_bind_inv in H as (proba & Hproba & H).
  apply outcome_bind_inv in H as (row & Hrow & H).
  apply outcome_bind_inv in H as (prob & Hprob & H).
  apply outcome_bind_inv in H as (sv & _ & H).
  injection H as <-. cbn [prediction churn_probability].
  exists preds, proba, row. repeat split; auto using index_inv.
Qed.

Section PredictSingleRun.

Variable parse : string → option Q.
Variable model : Pipeline.

(** Running [predict_single] forward from what the pipeline answers. *)
Lemma predict_single_run (customer_data : list (string * cell))
    (s : list DataFrame) :
  NoDup (map fst customer_data) →
  match score model (clean_frame parse (frame_of_record customer_data)) with
  | Ok res =>
      ∃ s', predict_single parse model customer_data s = Ok (res, s')
            ∧ s `prefix_of` s'
  | Raise e => predict_single parse model customer_data s = Raise e
  end.
Proof.
  intros Hnd. set (fr := frame_of_record customer_data).
  assert (Hwf : wf_frame fr) by now apply wf_frame_of_record.
  assert (Hfr : (s ++ [fr]) !! length s = Some fr)
    by (rewrite lookup_app_r by lia; now rewrite Nat.sub_diag).
  destruct (clean_data_run parse (s ++ [fr]) (length s) fr Hfr Hwf)
    as (r' & s1 & Hrun & He).
  pose proof He as (Hp & _ & Hg).
  assert (Hpre : s `prefix_of` s1) by (etrans; [apply prefix_app_r|exact Hp]; done).
  unfold predict_single.
  rewrite (bind_Ok (df_new fr) _ s (length s) (s ++ [fr]) eq_refl).
  rewrite (bind_Ok _ _ _ _ _ Hrun).
  rewrite (bind_Ok _ _ _ _ _ (df_load_Ok _ _ _ Hg)).
  unfold score. fold fr.
  rewrite lift_bind.
  destruct (model_predict model (clean_frame parse fr)) as [preds|e];
    cbn [mbind outcome_bind]; [|done].
  rewrite lift_bind.
  destruct (index preds 0) as [pred|e]; cbn [mbind outcome_bind]; [|done].
  rewrite lift_bind.
  destruct (model_predict_proba model (clean_frame parse fr)) as [proba|e];
    cbn [mbind outcome_bind]; [|done].
  rewrite lift_bind.
  destruct (index proba 0) as [row|e]; cbn [mbind outcome_bind]; [|done].
  rewrite lift_bind.
  destruct (index row 1) as [prob|e]; cbn [mbind outcome_bind]; [|done].
  rewrite lift_bind.
  destruct (calculate_shap_values model (clean_frame parse fr)) as [sv|e];
    cbn [mbind outcome_bind]; [|done].
  exists s1. split; [reflexivity | exact Hpre].
Qed.

(** What a successful call of [predict_single] returns. *)
Lemma predict_single_score (customer_data : list (string * cell))
    (s : list DataFrame) res s' :
  NoDup (map fst customer_data) →
  predict_single parse model customer_data s = Ok (res, s') →
  score model (clean_frame parse (frame_of_record customer_data)) = Ok res.
Proof.
  intros Hnd H. pose proof (predict_single_run customer_data s Hnd) as Hrun.
  destruct (score model _) as [res'|e].
  - destruct Hrun as (s'' & Hrun & _). congruence.
  - congruence.
Qed.

End PredictSingleRun.

(** ** The label of a single prediction *)

(** C5. The label and the probability returned for a record both come
    from the pipeline: the label is the first entry of its [predict] on
    the cleaned one-row frame, the probability the positive-class entry of
    the first row of its [predict_proba] on the same frame.
    [predict_single] compares nothing with 0.5: a pipeline that reports
    other probabilities returns the same label, and one that predicts
    other labels the same probability. *)
Theorem label_is_pipeline_predict parse model (customer_data : list (string * cell))
    (s : list DataFrame) res s' :
  NoDup (map fst customer_data) →
  predict_single parse model customer_data s = Ok (res, s') →
  (∃ preds proba row,
      model_predict model (clean_frame parse (frame_of_record customer_data))
        = Ok preds
      ∧ preds !! 0 = Some (prediction res)
      ∧ model_predict_proba model (clean_frame parse (frame_of_record customer_data))
        = Ok proba
      ∧ proba !! 0 = Some row
      ∧ row !! 1 = Some (churn_probability res))
  ∧ (∀ predict_proba' res2 s2,
       predict_single parse
         (mkPipeline (preprocessor_transform model) (classifier_predict model)
            predict_proba' (explainer_shap_values model))
         customer_data s = Ok (res2, s2) →
       prediction res2 = prediction res)
  ∧ (∀ predict' res2 s2,
       predict_single parse
         (mkPipeline (preprocessor_transform model) predict'
            (classifier_predict_proba model) (explainer_shap_values model))
         customer_data s = Ok (res2, s2) →
       churn_probability res2 = churn_probability res).
Proof.
  intros Hnd H. apply (predict_single_score _ _ _ _ _ _ Hnd) in H.
  apply score_inv in H as (preds & proba & row & Hpreds & Hpred & Hproba & Hrow & Hprob).
  split; [|split].
  - exists preds, proba, row. done.
  - intros predict_proba' res2 s2 H2.
    apply (predict_single_score _ _ _ _ _ _ Hnd) in H2.
    apply score_inv in H2 as (preds2 & _ & _ & Hpreds2 & Hpred2 & _).
    change (model_predict model (clean_frame parse (frame_of_record customer_data))
            = Ok preds2) in Hpreds2.
    congruence.
  - intros predict' res2 s2 H2.
    apply (predict_single_score _ _ _ _ _ _ Hnd) in H2.
    apply score_inv in H2 as (_ & proba2 & row2 & _ & _ & Hproba2 & Hrow2 & Hprob2).
    change (model_predict_proba model
              (clean_frame parse (frame_of_record customer_data)) = Ok proba2)
      in Hproba2.
    congruence.
Qed.

Example predict_single_demo :
  predict_single Decimal.parse Demo.model Demo.customer []
  = Ok (mkResult 1 0.8 [0.25; 0.00; 0.00; 0.25]%Q
          ["gender"; "Contract"; "tenure"; "TechSupport"; "MonthlyCharges";
           "TotalCharges"],
        [frame_of_record Demo.customer; frame_of_record Demo.customer;
         clean_frame Decimal.parse (frame_of_record Demo.customer)]).
Proof. vm_compute. reflexivity. Qed.

Example predict_single_boundary :
  predict_single Decimal.parse Boundary.model Boundary.customer []
  = Ok (mkResult 1 0.5 [0.00]%Q
          ["Contract"; "tenure"; "MonthlyCharges"; "TotalCharges"],
        [frame_of_record Boundary.customer; frame_of_record Boundary.customer;
         clean_frame Decimal.parse (frame_of_record Boundary.customer)]).
Proof. vm_compute. reflexivity. Qed.

Lemma boundary_customer_keys : NoDup (map fst Boundary.customer).
Proof. apply (bool_decide_unpack _). vm_compute. exact I. Qed.

(** The rule that the label is 1 exactly when the probability is above 0.5
    fails for the boundary pipeline: the record with 36 months of tenure
    has the probability 1/2 and the label 1. *)
Lemma label_threshold_counterexample :
  ∃ res s',
    predict_single Decimal.parse Boundary.model Boundary.customer [] = Ok (res, s')
    ∧ (churn_probability res == 0.5)%Q
    ∧ prediction res = 1%Z
    ∧ ¬ (prediction res = 1%Z ↔ (0.5 < churn_probability res)%Q).
Proof.
  eexists _, _. split; [exact predict_single_boundary|].
  cbn [prediction churn_probability].
  split; [reflexivity|]. split; [reflexivity|].
  intros [Hlt _]. specialize (Hlt eq_refl). exact (Qlt_irrefl _ Hlt).
Qed.

Lemma label_is_pipeline_predict_witness :
  ∃ res s',
    predict_single Decimal.parse Boundary.model Boundary.customer [] = Ok (res, s')
    ∧ (∃ preds proba row,
          model_predict Boundary.model
            (clean_frame Decimal.parse (frame_of_record Boundary.customer)) = Ok preds
          ∧ preds !! 0 = Some (prediction res)
          ∧ model_predict_proba Boundary.model
              (clean_frame Decimal.parse (frame_of_record Boundary.customer)) = Ok proba
          ∧ proba !! 0 = Some row
          ∧ row !! 1 = Some (churn_probability res))
    ∧ (∀ predict_proba' res2 s2,
         predict_single Decimal.parse
           (mkPipeline (preprocessor_transform Boundary.model)
              (classifier_predict Boundary.model) predict_proba'
              (explainer_shap_values Boundary.model))
           Boundary.customer [] = Ok (res2, s2) →
         prediction res2 = prediction res)
    ∧ (∀ predict' res2 s2,
         predict_single Decimal.parse
           (mkPipeline (preprocessor_transform Boundary.model) predict'
              (classifier_predict_proba Boundary.model)
              (explainer_shap_values Boundary.model))
           Boundary.customer [] = Ok (res2, s2) →
         churn_probability res2 = churn_probability res).
Proof.
  eexists _, _. split; [exact predict_single_boundary|].
  eapply (label_is_pipeline_predict Decimal.parse Boundary.model Boundary.customer []);
    [exact boundary_customer_keys | exact predict_single_boundary].
Defined.

(** C1. The names returned with the attribution values are the columns of
    the cleaned input table, whatever the encoder does: for the reference
    pipeline, whose encoder expands [Contract] into three indicator
    features, a record yields four values and six names. *)
Theorem feature_names_are_raw_columns :
  (∀ model df v names,
      calculate_shap_values model df = Ok (v, names) →
      names = columns df
      ∧ ∃ X sv S,
          preprocessor_transform model df = Ok X
          ∧ explainer_shap_values model X = Ok sv
          ∧ positive_class sv = Ok S
          ∧ v = concat S)
  ∧ ∃ res s',
      predict_single Decimal.parse Demo.model Demo.customer [] = Ok (res, s')
      ∧ length (shap_values res) = 4
      ∧ feature_names res
        = ["gender"; "Contract"; "tenure"; "TechSupport"; "MonthlyCharges";
           "TotalCharges"]
      ∧ length (shap_values res) ≠ length (feature_names res).
Proof.
  split.
  - intros model df v names. unfold calculate_shap_values, mbind, outcome_bind.
    destruct (preprocessor_transform model df) as [X|] eqn:HX; [|done].
    destruct (explainer_shap_values model X) as [sv|] eqn:Hsv; [|done].
    destruct (positive_class sv) as [S|] eqn:HS; [|done].
    intros [= <- <-]. split; [done|]. exists X, sv, S. repeat split; done.
  - eexists _, _. split; [exact predict_single_demo|]. cbn.
    repeat split; done.
Qed.

(** * Further properties *)

(** ** More about [clean_data] *)

Lemma columns_clean_frame parse f :
  columns (clean_frame parse f)
  = filter (λ n, n ≠ "customerID" ∧ n ≠ "Churn") (columns f).
Proof.
  unfold columns, clean_frame. cbn [cols]. rewrite map_map. cbn [fst].
  induction (cols f) as [|[n v] cs IH]; [done|].
  cbn [map fst]. rewrite !filter_cons. cbn [fst].
  case_decide; cbn [map fst]; now rewrite IH.
Qed.

Lemma replace_lookup a b v i :
  replace a b v !! i
  = (λ c, match c with
          | CStr x => if String.eqb x a then CStr b else c
          | _ => c
          end) <$> v !! i.
Proof. unfold replace. apply lookup_map. Qed.

(** X1. The cleaned table has the columns of the input in their order,
    without [customerID] and [Churn], and as many rows. *)
Theorem clean_data_columns parse (s : list DataFrame) r f :
  s !! r = Some f → wf_frame f →
  ∃ r' s' g,
    clean_data parse r s = Ok (r', s') ∧ s' !! r' = Some g
    ∧ columns g = filter (λ n, n ≠ "customerID" ∧ n ≠ "Churn") (columns f)
    ∧ nrows g = nrows f
    ∧ wf_frame g.
Proof.
  intros Hf Hwf.
  destruct (clean_data_run parse s r f Hf Hwf) as (r' & s' & Hrun & He).
  exists r', s', (clean_frame parse f). split; [done|]. split; [apply He|].
  split; [apply columns_clean_frame|]. split; [done|]. now apply wf_clean_frame.
Qed.

Lemma clean_data_columns_witness :
  ∃ r' s' g,
    clean_data Decimal.parse 0 [Demo.table] = Ok (r', s') ∧ s' !! r' = Some g
    ∧ columns g = filter (λ n, n ≠ "customerID" ∧ n ≠ "Churn") (columns Demo.table)
    ∧ nrows g = nrows Demo.table
    ∧ wf_frame g.
Proof.
  apply (clean_data_columns Decimal.parse [Demo.table] 0 Demo.table);
    [reflexivity | exact demo_table_wf].
Defined.

(** X2. In each add-on service column that is present, the cells
    ["No internet service"] and ["No phone service"] become ["No"], every
    other cell stays as it is, and no cleaned cell holds one of the two
    texts. *)
Theorem clean_data_addon_columns parse (s : list DataFrame) r f name v :
  s !! r = Some f → wf_frame f →
  name ∈ replace_cols → assoc name (cols f) = Some v →
  ∃ r' s' g v',
    clean_data parse r s = Ok (r', s') ∧ s' !! r' = Some g
    ∧ assoc name (cols g) = Some v'
    ∧ length v' = length v
    ∧ (∀ i c, v !! i = Some c →
         v' !! i = Some (match c with
                         | CStr x =>
                             if (String.eqb x "No internet service"
                                   || String.eqb x "No phone service")
                             then CStr "No" else c
                         | _ => c
                         end))
    ∧ (CStr "No internet service" ∉ v') ∧ (CStr "No phone service" ∉ v').
Proof.
  intros Hf Hwf Hin Hv.
  destruct (clean_data_run parse s r f Hf Hwf) as (r' & s' & Hrun & He).
  set (R := λ v, replace "No phone service" "No" (replace "No internet service" "No" v)).
  assert (Hname : name ≠ "customerID" ∧ name ≠ "Churn" ∧ name ≠ "TotalCharges").
  { unfold replace_cols in Hin. repeat split; intros ->;
      apply (bool_decide_pack _) in Hin; vm_compute in Hin; exact Hin. }
  destruct Hname as (H1 & H2 & H3).
  assert (Hcol : clean_column parse name v = R v).
  { unfold clean_column. apply String.eqb_neq in H3. rewrite H3.
    rewrite (proj2 (existsb_exists (String.eqb name) replace_cols)); [done|].
    exists name. split; [now apply list_elem_of_In | apply String.eqb_refl]. }
  assert (Hcell : ∀ i c, v !! i = Some c →
            R v !! i = Some (match c with
                             | CStr x =>
                                 if (String.eqb x "No internet service"
                                       || String.eqb x "No phone service")
                                 then CStr "No" else c
                             | _ => c
                             end)).
  { intros i c Hc. unfold R. rewrite !replace_lookup, Hc. cbn [fmap option_fmap option_map].
    f_equal. destruct c as [x|q|]; try done.
    destruct (String.eqb x "No internet service") eqn:E1; cbn [orb].
    - reflexivity.
    - now destruct (String.eqb x "No phone service"). }
  assert (Hno : ∀ t, (t = "No internet service" ∨ t = "No phone service") → CStr t ∉ R v).
  { intros t Ht Hel. apply list_elem_of_lookup in Hel as [i Hi].
    assert (is_Some (v !! i)) as [c Hc].
    { apply lookup_lt_is_Some. apply lookup_lt_Some in Hi.
      unfold R in Hi. now rewrite !length_replace in Hi. }
    rewrite (Hcell i c Hc) in Hi. injection Hi as Hi.
    destruct c as [x|q|]; try done.
    destruct (String.eqb x "No internet service") eqn:E1; cbn [orb] in Hi.
    { injection Hi as <-. destruct Ht; discriminate. }
    destruct (String.eqb x "No phone service") eqn:E2.
    { injection Hi as <-. destruct Ht; discriminate. }
    injection Hi as ->. destruct Ht as [->| ->].
    - now rewrite String.eqb_refl in E1.
    - now rewrite String.eqb_refl in E2. }
  exists r', s', (clean_frame parse f), (R v).
  split; [done|]. split; [apply He|]. split.
  { rewrite (assoc_clean_frame parse f name v Hv H1 H2). now rewrite Hcol. }
  split; [unfold R; now rewrite !length_replace|].
  split; [exact Hcell|]. split; apply Hno; auto.
Qed.

Lemma demo_customer_wf : wf_frame (frame_of_record Demo.customer).
Proof.
  apply (bool_decide_unpack (wf_frame (frame_of_record Demo.customer))).
  vm_compute. exact I.
Qed.

Lemma clean_data_addon_columns_witness :
  ∃ r' s' g v',
    clean_data Decimal.parse 0 [frame_of_record Demo.customer] = Ok (r', s')
    ∧ s' !! r' = Some g
    ∧ assoc "TechSupport" (cols g) = Some v'
    ∧ length v' = length [CStr "No internet service"]
    ∧ (∀ i c, [CStr "No internet service"] !! i = Some c →
         v' !! i = Some (match c with
                         | CStr x =>
                             if (String.eqb x "No internet service"
                                   || String.eqb x "No phone service")
                             then CStr "No" else c
                         | _ => c
                         end))
    ∧ (CStr "No internet service" ∉ v') ∧ (CStr "No phone service" ∉ v').
Proof.
  apply (clean_data_addon_columns Decimal.parse [frame_of_record Demo.customer] 0
           (frame_of_record Demo.customer) "TechSupport");
    [reflexivity | exact demo_customer_wf | | reflexivity].
  apply (bool_decide_unpack _). vm_compute. exact I.
Defined.

(** X3. A column other than [customerID], [Churn], [TotalCharges] and the
    add-on service columns is in the cleaned table with the values it had. *)
Theorem clean_data_other_columns parse (s : list DataFrame) r f name v :
  s !! r = Some f → wf_frame f →
  name ∉ "customerID" :: "Churn" :: "TotalCharges" :: replace_cols →
  assoc name (cols f) = Some v →
  ∃ r' s' g,
    clean_data parse r s = Ok (r', s') ∧ s' !! r' = Some g
    ∧ assoc name (cols g) = Some v.
Proof.
  intros Hf Hwf Hn Hv.
  destruct (clean_data_run parse s r f Hf Hwf) as (r' & s' & Hrun & He).
  apply not_elem_of_cons in Hn as [H1 Hn]. apply not_elem_of_cons in Hn as [H2 Hn].
  apply not_elem_of_cons in Hn as [H3 Hn].
  exists r', s', (clean_frame parse f). split; [done|]. split; [apply He|].
  rewrite (assoc_clean_frame parse f name v Hv H1 H2). f_equal.
  unfold clean_column. apply String.eqb_neq in H3. rewrite H3.
  destruct (existsb (String.eqb name) replace_cols) eqn:E; [|done].
  apply existsb_exists in E as (n & Hin & E). apply String.eqb_eq in E as <-.
  now apply list_elem_of_In in Hin.
Qed.

Lemma clean_data_other_columns_witness :
  ∃ r' s' g,
    clean_data Decimal.parse 0 [Demo.table] = Ok (r', s') ∧ s' !! r' = Some g
    ∧ assoc "tenure" (cols g) = Some [CNum 1; CNum 60; CNum 2].
Proof.
  apply (clean_data_other_columns Decimal.parse [Demo.table] 0 Demo.table "tenure");
    [reflexivity | exact demo_table_wf | | reflexivity].
  apply (bool_decide_unpack _). vm_compute. exact I.
Defined.

(** X4. Columns that are absent are skipped: a table with none of
    [customerID], [Churn], [TotalCharges] and the add-on service columns
    comes back as a new object with the same content. *)
Theorem clean_data_nothing_to_do parse (s : list DataFrame) r f :
  s !! r = Some f → wf_frame f →
  Forall (λ n, n ∉ "customerID" :: "Churn" :: "TotalCharges" :: replace_cols)
         (columns f) →
  ∃ r' s',
    clean_data parse r s = Ok (r', s') ∧ s' !! r' = Some f ∧ r' ≠ r.
Proof.
  intros Hf Hwf Hall.
  destruct (clean_data_run parse s r f Hf Hwf) as (r' & s' & Hrun & He).
  exists r', s'. split; [done|].
  assert (Heq : clean_frame parse f = f).
  { destruct f as [k cs]. unfold clean_frame, columns in *. cbn [nrows cols] in *.
    f_equal. clear Hf Hwf Hrun He.
    induction cs as [|[n v] cs IH]; [done|].
    cbn [map fst] in Hall. apply Forall_cons in Hall as [Hn Hall].
    apply not_elem_of_cons in Hn as [H1 Hn]. apply not_elem_of_cons in Hn as [H2 Hn].
    apply not_elem_of_cons in Hn as [H3 Hn].
    rewrite filter_cons_True by done. cbn [map fst snd]. rewrite (IH Hall).
    f_equal. f_equal. unfold clean_column. apply String.eqb_neq in H3. rewrite H3.
    destruct (existsb (String.eqb n) replace_cols) eqn:E; [|done].
    apply existsb_exists in E as (m & Hin & E). apply String.eqb_eq in E as <-.
    now apply list_elem_of_In in Hin. }
  pose proof He as (_ & Hr & Hg). rewrite Heq in Hg. split; [done|].
  apply lookup_lt_Some in Hf. lia.
Qed.

Lemma clean_data_nothing_to_do_witness :
  ∃ r' s',
    clean_data Decimal.parse 0
      [mkDF 2 [("tenure", [CNum 1; CNum 2]); ("Contract", [CStr "One year"; CNaN])]]
    = Ok (r', s')
    ∧ s' !! r'
      = Some (mkDF 2 [("tenure", [CNum 1; CNum 2]); ("Contract", [CStr "One year"; CNaN])])
    ∧ r' ≠ 0.
Proof.
  apply (clean_data_nothing_to_do Decimal.parse
           [mkDF 2 [("tenure", [CNum 1; CNum 2]); ("Contract", [CStr "One year"; CNaN])]]
           0 (mkDF 2 [("tenure", [CNum 1; CNum 2]); ("Contract", [CStr "One year"; CNaN])])).
  - reflexivity.
  - apply (bool_decide_unpack _). vm_compute. exact I.
  - apply (bool_decide_unpack _). vm_compute. exact I.
Defined.

(** ** More about [predict_single] *)

Lemma columns_frame_of_record (d : list (string * cell)) :
  columns (frame_of_record d) = map fst d.
Proof. unfold columns, frame_of_record. cbn [cols]. now rewrite map_map. Qed.

Lemma score_feature_names model cleaned res :
  score model cleaned = Ok res → feature_names res = columns cleaned.
Proof.
  unfold score, mbind, outcome_bind.
  destruct (model_predict model cleaned) as [preds|]; [|done].
  destruct (index preds 0) as [pred|]; [|done].
  destruct (model_predict_proba model cleaned) as [proba|]; [|done].
  destruct (index proba 0) as [row|]; [|done].
  destruct (index row 1) as [prob|]; [|done].
  unfold calculate_shap_values, mbind, outcome_bind.
  destruct (preprocessor_transform model cleaned) as [X|]; [|done].
  destruct (explainer_shap_values model X) as [sv|]; [|done].
  destruct (positive_class sv) as [S|]; [|done].
  now intros [= <-].
Qed.

Section PredictSingleMore.

Variable parse : string → option Q.
Variable model : Pipeline.

(** X5. For a record with distinct keys cleaning cannot fail: the call
    returns what the pipeline computes from the cleaned one-row frame,
    or raises the exception of the pipeline stage that failed; the
    objects of the store it is called in are left as they are. *)
Theorem predict_single_outcome (customer_data : list (string * cell))
    (s : list DataFrame) :
  NoDup (map fst customer_data) →
  match score model (clean_frame parse (frame_of_record customer_data)) with
  | Ok res =>
      ∃ s', predict_single parse model customer_data s = Ok (res, s')
            ∧ s `prefix_of` s'
  | Raise e => predict_single parse model customer_data s = Raise e
  end.
Proof. apply predict_single_run. Qed.

(** X6. The feature names returned for a record with distinct keys are
    its keys in their order, without [customerID] and [Churn]. *)
Theorem predict_single_feature_names (customer_data : list (string * cell))
    (s : list DataFrame) res s' :
  NoDup (map fst customer_data) →
  predict_single parse model customer_data s = Ok (res, s') →
  feature_names res
  = filter (λ n, n ≠ "customerID" ∧ n ≠ "Churn") (map fst customer_data).
Proof.
  intros Hnd H. pose proof (predict_single_run parse model customer_data s Hnd) as Hrun.
  destruct (score model _) as [res'|e] eqn:Hscore.
  - destruct Hrun as (s'' & Hrun & _). rewrite Hrun in H. injection H as -> ->.
    rewrite (score_feature_names _ _ _ Hscore), columns_clean_frame.
    now rewrite columns_frame_of_record.
  - congruence.
Qed.

End PredictSingleMore.

Lemma demo_customer_keys : NoDup (map fst Demo.customer).
Proof. apply (bool_decide_unpack _). vm_compute. exact I. Qed.

Lemma predict_single_outcome_witness :
  match score Demo.model (clean_frame Decimal.parse (frame_of_record Demo.customer)) with
  | Ok res =>
      ∃ s', predict_single Decimal.parse Demo.model Demo.customer [] = Ok (res, s')
            ∧ [] `prefix_of` s'
  | Raise e => predict_single Decimal.parse Demo.model Demo.customer [] = Raise e
  end.
Proof.
  apply (predict_single_outcome Decimal.parse Demo.model Demo.customer []).
  exact demo_customer_keys.
Defined.

Lemma predict_single_feature_names_witness :
  ∃ res s',
    predict_single Decimal.parse Demo.model Demo.customer [] = Ok (res, s')
    ∧ feature_names res
      = filter (λ n, n ≠ "customerID" ∧ n ≠ "Churn") (map fst Demo.customer).
Proof.
  eexists _, _. split; [exact predict_single_demo|].
  eapply (predict_single_feature_names Decimal.parse Demo.model Demo.customer []);
    [exact demo_customer_keys | exact predict_single_demo].
Defined.

(** ** More about [predict_batch] *)

Lemma columns_set_column_present name v f :
  name ∈ columns f → columns (set_column name v f) = columns f.
Proof.
  intros Hin. unfold set_column, has_column. rewrite bool_decide_eq_true_2 by done.
  unfold columns. cbn [cols]. rewrite map_map. apply map_ext. intros [n w].
  cbn [fst]. destruct (String.eqb_spec n name) as [->|]; done.
Qed.

Lemma set_column_absent name v f :
  name ∉ columns f → set_column name v f = mkDF (nrows f) (cols f ++ [(name, v)]).
Proof.
  intros Hn. unfold set_column, has_column. now rewrite bool_decide_eq_false_2.
Qed.

Lemma df_setitem_mismatch r name v (s : list DataFrame) f :
  s !! r = Some f → length v ≠ nrows f → df_setitem r name v s = Raise ValueError.
Proof.
  intros Hf Hl. unfold df_setitem. rewrite (bind_Ok _ _ _ _ _ (df_load_Ok _ _ _ Hf)).
  apply Nat.eqb_neq in Hl. now rewrite Hl.
Qed.

Section PredictBatchMore.

Variable parse : string → option Q.
Variable model : Pipeline.

(** Running [predict_batch] forward from what the pipeline answers. *)
Lemma predict_batch_run (s : list DataFrame) r f include_shap P probs preds :
  s !! r = Some f → wf_frame f →
  model_predict_proba model (clean_frame parse f) = Ok P →
  column_at 1 P = Ok probs →
  model_predict model (clean_frame parse f) = Ok preds →
  if decide (length probs = nrows f)
  then match aggregate_of model include_shap probs (clean_frame parse f) with
       | Ok agg =>
           ∃ clean s1,
             predict_batch parse model r include_shap s
             = Ok ((length s1, clean, probs, agg),
                   s1 ++ [set_column "Risk_Level" (map risk_level probs)
                            (set_column "Churn_Probability" (map CNum probs) f)])
             ∧ extends s clean (clean_frame parse f) s1
       | Raise e => predict_batch parse model r include_shap s = Raise e
       end
  else predict_batch parse model r include_shap s = Raise ValueError.
Proof.
  intros Hf Hwf HP Hprobs Hpreds.
  destruct (clean_data_run parse s r f Hf Hwf) as (clean & s1 & Hrun & He).
  pose proof He as (_ & _ & Hg).
  pose proof (extends_old _ _ _ _ _ _ He Hf) as Hf1.
  assert (Hnew : (s1 ++ [f]) !! length s1 = Some f)
    by (rewrite lookup_app_r by lia; now rewrite Nat.sub_diag).
  unfold predict_batch.
  rewrite (bind_Ok _ _ _ _ _ Hrun).
  rewrite (bind_Ok _ _ _ _ _ (df_load_Ok _ _ _ Hg)).
  rewrite lift_bind, HP. rewrite lift_bind, Hprobs. rewrite lift_bind, Hpreds.
  rewrite (bind_Ok _ _ _ _ _ (df_copy_Ok _ _ _ Hf1)).
  case_decide as Hlen.
  - rewrite (bind_Ok _ _ _ _ _ (df_setitem_Ok _ _ f "Churn_Probability"
                                  (map CNum probs) Hnew
                                  ltac:(now rewrite length_map))).
    rewrite insert_app_r_alt, Nat.sub_diag by lia. cbn [insert list_insert].
    set (f1 := set_column "Churn_Probability" (map CNum probs) f).
    assert (Hnew1 : (s1 ++ [f1]) !! length s1 = Some f1)
      by (rewrite lookup_app_r by lia; now rewrite Nat.sub_diag).
    rewrite (bind_Ok _ _ _ _ _ (df_setitem_Ok _ _ f1 "Risk_Level"
                                  (map risk_level probs) Hnew1
                                  ltac:(unfold f1; now rewrite length_map, nrows_set_column))).
    rewrite insert_app_r_alt, Nat.sub_diag by lia. cbn [insert list_insert].
    unfold aggregate_of. destruct include_shap; cbn [andb].
    + destruct (existsb id (map (Qltb 0.6) probs)).
      * destruct (df_mask (map (Qltb 0.6) probs) (clean_frame parse f))
          as [hr|e] eqn:Em; cbn [mbind outcome_bind].
        -- destruct (calculate_batch_shap_aggregate model hr) as [agg|e] eqn:Ec.
           ++ exists clean, s1. split; [|exact He].
              unfold mbind, St_bind, lift, mret, St_ret. cbv beta iota.
              now rewrite Ec.
           ++ unfold mbind, St_bind, lift. cbv beta iota. now rewrite Ec.
        -- reflexivity.
      * exists clean, s1. split; [reflexivity | exact He].
    + exists clean, s1. split; [reflexivity | exact He].
  - unfold mbind at 1, St_bind at 1.
    rewrite (df_setitem_mismatch _ _ _ _ f Hnew); [done|].
    now rewrite length_map.
Qed.

(** X7. When the uploaded table has no column named [Churn_Probability]
    or [Risk_Level], the results table is that table with the two
    columns appended in this order: every original column keeps its
    place and its values, and there is one probability per row. *)
Theorem predict_batch_appends (s : list DataFrame) r f include_shap
    res clean probs agg s' :
  s !! r = Some f → wf_frame f →
  "Churn_Probability" ∉ columns f → "Risk_Level" ∉ columns f →
  predict_batch parse model r include_shap s = Ok ((res, clean, probs, agg), s') →
  s' !! res = Some (mkDF (nrows f)
                      (cols f ++ [("Churn_Probability", map CNum probs);
                                  ("Risk_Level", map risk_level probs)]))
  ∧ length probs = nrows f.
Proof.
  intros Hf Hwf H1 H2 H.
  destruct (predict_batch_inv parse model s r f _ _ _ _ _ _ Hf Hwf H)
    as (s1 & P & _ & _ & _ & _ & Hlen & -> & -> & _).
  split; [|done]. rewrite lookup_app_r by lia. rewrite Nat.sub_diag. cbn [lookup list_lookup].
  f_equal. rewrite (set_column_absent "Churn_Probability") by done.
  rewrite set_column_absent.
  - cbn [nrows cols]. now rewrite <- app_assoc.
  - unfold columns. cbn [cols]. rewrite map_app. cbn [map fst].
    intros [Hin|Hin]%elem_of_app; [done|].
    apply list_elem_of_singleton in Hin. discriminate.
Qed.

(** X8. Whatever the uploaded table holds, every column of it other than
    [Churn_Probability] and [Risk_Level] is in the results table with
    its values and the row count is the same; a table that already has
    both columns gets them overwritten in place, its column list
    unchanged. *)
Theorem predict_batch_keeps_columns (s : list DataFrame) r f include_shap
    res clean probs agg s' :
  s !! r = Some f → wf_frame f →
  predict_batch parse model r include_shap s = Ok ((res, clean, probs, agg), s') →
  ∃ g, s' !! res = Some g
       ∧ nrows g = nrows f
       ∧ (∀ name, name ≠ "Churn_Probability" → name ≠ "Risk_Level" →
            assoc name (cols g) = assoc name (cols f))
       ∧ ("Churn_Probability" ∈ columns f → "Risk_Level" ∈ columns f →
            columns g = columns f).
Proof.
  intros Hf Hwf H.
  destruct (predict_batch_inv parse model s r f _ _ _ _ _ _ Hf Hwf H)
    as (s1 & P & _ & _ & _ & _ & Hlen & -> & -> & _).
  eexists. split; [rewrite lookup_app_r by lia; now rewrite Nat.sub_diag|].
  split; [now rewrite !nrows_set_column|]. split.
  - intros name N1 N2. now rewrite !assoc_set_column_ne by done.
  - intros H1 H2. rewrite columns_set_column_present.
    + now apply columns_set_column_present.
    + now rewrite columns_set_column_present.
Qed.

(** Without [include_shap] the aggregate is [None]. *)
Lemma predict_batch_no_shap_None (s : list DataFrame) r res clean probs agg s' :
  predict_batch parse model r false s = Ok ((res, clean, probs, agg), s') →
  agg = None.
Proof.
  unfold predict_batch. intros H.
  apply bind_inv in H as (? & ? & _ & H). apply bind_inv in H as (? & ? & _ & H).
  apply bind_inv in H as (? & ? & _ & H). apply bind_inv in H as (? & ? & _ & H).
  apply bind_inv in H as (? & ? & _ & H). apply bind_inv in H as (? & ? & _ & H).
  apply bind_inv in H as (? & ? & _ & H). apply bind_inv in H as (? & ? & _ & H).
  apply bind_inv in H as (a & ? & Ha & H).
  apply mret_inv in Ha as [-> ->]. apply mret_inv in H as [[= _ _ _ <-] _]. done.
Qed.

End PredictBatchMore.

(** X9. A batch call without attribution never consults the explainer:
    its outcome is the same for every explainer, and its aggregate is
    [None]. *)
Theorem predict_batch_without_shap parse transform predict predict_proba
    explainer explainer' r (s : list DataFrame) :
  predict_batch parse (mkPipeline transform predict predict_proba explainer) r false s
  = predict_batch parse (mkPipeline transform predict predict_proba explainer') r false s
  ∧ ∀ res clean probs agg s',
      predict_batch parse (mkPipeline transform predict predict_proba explainer) r false s
      = Ok ((res, clean, probs, agg), s') →
      agg = None.
Proof.
  split; [reflexivity|]. intros res clean probs agg s' H.
  exact (predict_batch_no_shap_None _ _ _ _ _ _ _ _ _ H).
Qed.



(** X11. [predict_batch] returns whenever the pipeline answers with one
    row of two class probabilities per input row, [predict] succeeds and,
    if attribution is asked for and some row is above 0.6, the aggregate
    can be computed; it returns the positive-class probabilities and that
    aggregate, and the cleaned table it hands back holds the cleaned
    content. *)
Theorem predict_batch_succeeds parse model (s : list DataFrame) r f include_shap
    P probs preds agg :
  s !! r = Some f → wf_frame f →
  model_predict_proba model (clean_frame parse f) = Ok P →
  column_at 1 P = Ok probs →
  model_predict model (clean_frame parse f) = Ok preds →
  length probs = nrows f →
  aggregate_of model include_shap probs (clean_frame parse f) = Ok agg →
  ∃ res clean s',
    predict_batch parse model r include_shap s = Ok ((res, clean, probs, agg), s')
    ∧ s' !! clean = Some (clean_frame parse f).
Proof.
  intros Hf Hwf HP Hprobs Hpreds Hlen Hagg.
  pose proof (predict_batch_run parse model s r f include_shap P probs preds
                Hf Hwf HP Hprobs Hpreds) as Hrun.
  rewrite decide_True, Hagg in Hrun by done.
  destruct Hrun as (clean & s1 & Hrun & He).
  eexists _, clean, _. split; [exact Hrun|].
  apply lookup_app_l_Some, He.
Qed.

Lemma predict_batch_succeeds_witness :
  ∃ res clean s',
    predict_batch Decimal.parse Demo.model 0 false [Demo.table]
    = Ok ((res, clean, [0.8; 0.2; 0.8]%Q, None), s')
    ∧ s' !! clean = Some (clean_frame Decimal.parse Demo.table).
Proof.
  eapply (predict_batch_succeeds Decimal.parse Demo.model [Demo.table] 0 Demo.table false);
    [reflexivity | exact demo_table_wf | reflexivity | reflexivity | reflexivity
    | reflexivity | reflexivity].
Defined.

Lemma predict_batch_appends_witness :
  ∃ res clean probs agg s',
    predict_batch Decimal.parse Demo.model 0 true [Demo.table]
      = Ok ((res, clean, probs, agg), s')
    ∧ s' !! res = Some (mkDF (nrows Demo.table)
                          (cols Demo.table
                           ++ [("Churn_Probability", map CNum probs);
                               ("Risk_Level", map risk_level probs)]))
    ∧ length probs = nrows Demo.table.
Proof.
  eexists _, _, _, _, _. split; [exact predict_batch_demo|].
  eapply (predict_batch_appends Decimal.parse Demo.model [Demo.table] 0 Demo.table true);
    [reflexivity | exact demo_table_wf | | | exact predict_batch_demo];
    apply (bool_decide_unpack _); vm_compute; exact I.
Defined.

Lemma predict_batch_keeps_columns_witness :
  ∃ res clean probs agg s',
    predict_batch Decimal.parse Demo.model 0 true [Demo.table]
      = Ok ((res, clean, probs, agg), s')
    ∧ ∃ g, s' !! res = Some g
           ∧ nrows g = nrows Demo.table
           ∧ (∀ name, name ≠ "Churn_Probability" → name ≠ "Risk_Level" →
                assoc name (cols g) = assoc name (cols Demo.table))
           ∧ ("Churn_Probability" ∈ columns Demo.table →
              "Risk_Level" ∈ columns Demo.table →
              columns g = columns Demo.table).
Proof.
  eexists _, _, _, _, _. split; [exact predict_batch_demo|].
  eapply (predict_batch_keeps_columns Decimal.parse Demo.model [Demo.table] 0 Demo.table true);
    [reflexivity | exact demo_table_wf | exact predict_batch_demo].
Defined.

(** ** More about [get_top_features] *)

Lemma slice_to_take {A} (n : Z) (l : list A) : ∃ k, slice_to n l = take k l.
Proof. unfold slice_to. destruct (n <? 0)%Z; eauto. Qed.

Lemma slice_to_neg {A} (p : positive) (l : list A) :
  slice_to (Z.neg p) l = take (length l - Pos.to_nat p) l.
Proof.
  unfold slice_to. cbn [Z.ltb Z.compare]. f_equal. lia.
Qed.

Lemma length_sort_reverse {A} (key : A → Q) (l : list A) :
  length (sort_reverse key l) = length l.
Proof. apply Permutation_length, sort_reverse_perm. Qed.

(** X12. For a count [n] the result has [n] entries, or as many as there
    are name/value pairs when there are fewer: the shorter of the two
    input lists bounds the number of pairs. *)
Theorem top_features_length (shap_values : list Q) (feature_names : list string)
    (n : nat) :
  length (get_top_features shap_values feature_names (Z.of_nat n))
  = n `min` (length feature_names `min` length shap_values).
Proof.
  unfold get_top_features. rewrite slice_to_nat, length_take.
  now rewrite length_sort_reverse, length_zip.
Qed.

(** X13. A negative [top_n] is read as Python reads a negative slice
    bound: the ranking without its last [-top_n] entries. *)
Theorem top_features_negative (shap_values : list Q) (feature_names : list string)
    (p : positive) :
  get_top_features shap_values feature_names (Z.neg p)
  = take (length (zip feature_names shap_values) - Pos.to_nat p)
         (get_top_features shap_values feature_names
            (Z.of_nat (length (zip feature_names shap_values)))).
Proof.
  unfold get_top_features. rewrite slice_to_neg, slice_to_nat, length_sort_reverse.
  rewrite (take_ge _ (length (zip feature_names shap_values))); [done|].
  now rewrite length_sort_reverse.
Qed.

(** X14. Whatever [top_n] is, the result holds pairs of the zipped input
    only, none more often than the input does, so a name stays with its
    own value; when [top_n] is at least the number of pairs the result is
    a rearrangement of all of them, zero contributions included. *)
Theorem top_features_pairs (shap_values : list Q) (feature_names : list string)
    (top_n : Z) :
  get_top_features shap_values feature_names top_n ⊆+ zip feature_names shap_values
  ∧ ((Z.of_nat (length (zip feature_names shap_values)) <= top_n)%Z →
     get_top_features shap_values feature_names top_n
     ≡ₚ zip feature_names shap_values).
Proof.
  unfold get_top_features. split.
  - destruct (slice_to_take top_n
                (sort_reverse (λ x : string * Q, Qabs (snd x))
                   (zip feature_names shap_values))) as [k ->].
    etrans; [apply sublist_submseteq, sublist_take|].
    apply Permutation_submseteq, sort_reverse_perm.
  - intros Hn. unfold slice_to. destruct (Z.ltb_spec top_n 0); [lia|].
    rewrite take_ge by (rewrite length_sort_reverse; lia).
    apply sort_reverse_perm.
Qed.

(** ** More about [calculate_batch_shap_aggregate] *)

(** X15. The aggregate is [None] exactly for a table without rows or
    without columns; for any other table the call raises or returns an
    aggregate. *)
Theorem aggregate_None_iff_empty model high_risk_data :
  calculate_batch_shap_aggregate model high_risk_data = Ok None
  ↔ empty high_risk_data = true.
Proof.
  unfold calculate_batch_shap_aggregate, mbind, outcome_bind.
  destruct (empty high_risk_data); [done|]. split; [|done].
  destruct (preprocessor_transform model high_risk_data) as [X|]; [|done].
  destruct (explainer_shap_values model X) as [sv|]; [|done].
  now destruct (positive_class sv).
Qed.

(** X16. In an aggregate the names are the columns of the table passed
    in, every mean is non-negative, and the ranked list holds pairs of a
    name with the mean at the same position, none more often than the
    zipped lists do; its length is the smallest of 10, the number of
    columns and the number of features the explainer reports. *)
Theorem aggregate_contents model high_risk_data a :
  calculate_batch_shap_aggregate model high_risk_data = Ok (Some a) →
  agg_feature_names a = columns high_risk_data
  ∧ Forall (λ m, (0 <= m)%Q) (mean_shap_values a)
  ∧ top_features a ⊆+ zip (agg_feature_names a) (mean_shap_values a)
  ∧ Forall (λ p, (0 <= snd p)%Q) (top_features a)
  ∧ length (top_features a)
    = 10 `min` (length (agg_feature_names a) `min` length (mean_shap_values a)).
Proof.
  intros Ha. apply aggregate_inv in Ha as (X & sv & S & _ & _ & _ & ->).
  cbn [agg_feature_names mean_shap_values top_features].
  pose proof (mean_axis0_abs_nonneg S) as Hnn.
  assert (Hsub : slice_to 10 (sort_reverse (λ x : string * Q, Qabs (snd x))
                                (zip (columns high_risk_data) (mean_axis0 (abs_array S))))
                 ⊆+ zip (columns high_risk_data) (mean_axis0 (abs_array S))).
  { change 10%Z with (Z.of_nat 10). rewrite slice_to_nat.
    etrans; [apply sublist_submseteq, sublist_take|].
    apply Permutation_submseteq, sort_reverse_perm. }
  split; [done|]. split; [done|]. split; [done|]. split.
  - apply Forall_forall. intros [n m] Hin. cbn [snd].
    eapply elem_of_submseteq in Hin; [|exact Hsub].
    apply elem_of_zip_r in Hin. rewrite Forall_forall in Hnn. auto.
  - change 10%Z with (Z.of_nat 10).
    now rewrite slice_to_nat, length_take, length_sort_reverse, length_zip.
Qed.

Lemma aggregate_contents_witness :
  ∃ a,
    calculate_batch_shap_aggregate Demo.model (clean_frame Decimal.parse Demo.table)
    = Ok (Some a)
    ∧ agg_feature_names a = columns (clean_frame Decimal.parse Demo.table)
    ∧ Forall (λ m, (0 <= m)%Q) (mean_shap_values a)
    ∧ top_features a ⊆+ zip (agg_feature_names a) (mean_shap_values a)
    ∧ Forall (λ p, (0 <= snd p)%Q) (top_features a)
    ∧ length (top_features a)
      = 10 `min` (length (agg_feature_names a) `min` length (mean_shap_values a)).
Proof.
  eexists. split; [vm_compute; reflexivity|].
  eapply (aggregate_contents Demo.model (clean_frame Decimal.parse Demo.table)).
  vm_compute. reflexivity.
Defined.

(** ** More about [analyze_high_risk_group] *)

Lemma newline_not_sentinel rest : newline +:+ rest ≠ sentinel_summary.
Proof.
  intros H.
  apply (f_equal (λ s, match s with String c _ => Some c | EmptyString => None end)) in H.
  lazy in H. discriminate.
Qed.

Lemma newline_app_not_sentinel rest more :
  (newline +:+ rest) +:+ more ≠ sentinel_summary.
Proof.
  intros H.
  apply (f_equal (λ s, match s with String c _ => Some c | EmptyString => None end)) in H.
  lazy in H. discriminate.
Qed.

Lemma filter_true_nil (mask : list bool) :
  filter (λ b, b = true) mask = [] → Forall (λ b, b = false) mask.
Proof.
  induction mask as [|[] mask IH]; [constructor| |].
  - rewrite filter_cons_True by done. discriminate.
  - rewrite filter_cons_False by done. intros H. constructor; auto.
Qed.

Section AnalyzeMore.

Variable series_mean : list cell → outcome Q.
Variable series_mode : list cell → list cell.
Variable format_float : nat → Q → string.
Variable str_cell : cell → string.
Variable str_nat : nat → string.

(** The summary of a cohort that is not empty: it is not the sentinel,
    and the aggregate only adds the addendum. *)
Lemma analyze_nonempty df probs hr :
  df_mask (map (Qltb 0.6) probs) df = Ok hr → empty hr = false →
  (∀ agg s, analyze_high_risk_group series_mean series_mode format_float str_cell
              str_nat df probs agg = Ok s → s ≠ sentinel_summary)
  ∧ (∀ agg, top_features agg ≠ [] →
       analyze_high_risk_group series_mean series_mode format_float str_cell str_nat
         df probs (Some agg)
       = s ← analyze_high_risk_group series_mean series_mode format_float str_cell
               str_nat df probs None;
         Ok (s +:+ shap_insights format_float str_nat (slice_to 5 (top_features agg)))).
Proof.
  intros Hm He. unfold analyze_high_risk_group. rewrite Hm. cbn [mbind outcome_bind].
  rewrite He. split.
  - intros agg s.
    destruct (mean_of_column series_mean "tenure" hr) as [t|]; [|done].
    cbn [mbind outcome_bind].
    destruct (mean_of_column series_mean "MonthlyCharges" hr) as [c|]; [|done].
    cbn [mbind outcome_bind].
    destruct agg as [agg|]; [destruct (top_features agg)|]; intros [= <-].
    + apply newline_not_sentinel.
    + apply newline_app_not_sentinel.
    + apply newline_not_sentinel.
  - intros agg Htop.
    destruct (mean_of_column series_mean "tenure" hr) as [t|]; [|done].
    cbn [mbind outcome_bind].
    destruct (mean_of_column series_mean "MonthlyCharges" hr) as [c|]; [|done].
    cbn [mbind outcome_bind].
    destruct (top_features agg) as [|x l] eqn:E; [done|]. reflexivity.
Qed.

(** X17. With one probability per row, the summary is the sentinel text
    exactly when no probability is above 0.6 or the table has no
    columns; with another number of probabilities the call raises
    [ValueError]. *)
Theorem analyze_sentinel_iff df probs agg :
  (length probs ≠ nrows df →
   analyze_high_risk_group series_mean series_mode format_float str_cell str_nat
     df probs agg = Raise ValueError)
  ∧ (length probs = nrows df →
     (analyze_high_risk_group series_mean series_mode format_float str_cell str_nat
        df probs agg = Ok sentinel_summary
      ↔ Forall (λ p, ¬ (0.6 < p)%Q) probs ∨ cols df = [])).
Proof.
  split.
  - intros Hlen. unfold analyze_high_risk_group, df_mask. rewrite length_map.
    apply Nat.eqb_neq in Hlen. now rewrite Hlen.
  - intros Hlen.
    destruct (df_mask (map (Qltb 0.6) probs) df) as [hr|e] eqn:Hm.
    2: { unfold df_mask in Hm. rewrite length_map in Hm.
         apply Nat.eqb_eq in Hlen. now rewrite Hlen in Hm. }
    assert (Hhr : hr = mkDF (length (filter (λ b, b = true) (map (Qltb 0.6) probs)))
                        (map (λ c, (fst c, select (map (Qltb 0.6) probs) (snd c)))
                             (cols df))).
    { unfold df_mask in Hm. rewrite length_map in Hm.
      apply Nat.eqb_eq in Hlen. rewrite Hlen in Hm. now injection Hm as <-. }
    destruct (empty hr) eqn:He.
    + split.
      * intros _. rewrite Hhr in He. unfold empty in He. cbn [nrows cols] in He.
        apply orb_true_iff in He as [He|He]; apply Nat.eqb_eq in He.
        -- left. apply length_zero_iff_nil, filter_true_nil in He.
           apply Forall_map in He. eapply Forall_impl; [exact He|].
           intros p Hp. now apply Qltb_ge.
        -- right. rewrite length_map in He. now apply length_zero_iff_nil.
      * intros _. unfold analyze_high_risk_group. rewrite Hm. cbn [mbind outcome_bind].
        now rewrite He.
    + destruct (analyze_nonempty df probs hr Hm He) as [Hne _]. split.
      * intros H. now destruct (Hne agg _ H).
      * intros H. exfalso. rewrite Hhr in He. unfold empty in He.
        cbn [nrows cols] in He. apply orb_false_iff in He as [He1 He2].
        apply Nat.eqb_neq in He1, He2.
        destruct H as [H|H]; [|now rewrite H in He2].
        apply He1. rewrite filter_true_none; [done|].
        apply Forall_map. eapply Forall_impl; [exact H|].
        intros p Hp. now apply Qltb_ge.
Qed.

(** X18. An aggregate changes the summary by one addendum only: without
    ranked features it changes nothing, the sentinel text is returned as
    it is, and otherwise the summary computed without the aggregate is
    followed by the list of its first five ranked features at most. *)
Theorem analyze_addendum df probs agg :
  (top_features agg = [] →
   analyze_high_risk_group series_mean series_mode format_float str_cell str_nat
     df probs (Some agg)
   = analyze_high_risk_group series_mean series_mode format_float str_cell str_nat
       df probs None)
  ∧ (top_features agg ≠ [] →
     analyze_high_risk_group series_mean series_mode format_float str_cell str_nat
       df probs (Some agg)
     = s ← analyze_high_risk_group series_mean series_mode format_float str_cell
             str_nat df probs None;
       if String.eqb s sentinel_summary then Ok s
       else Ok (s +:+ shap_insights format_float str_nat
                        (slice_to 5 (top_features agg)))).
Proof.
  split.
  - intros Htop. unfold analyze_high_risk_group. now rewrite Htop.
  - intros Htop.
    destruct (df_mask (map (Qltb 0.6) probs) df) as [hr|e] eqn:Hm.
    2: { unfold analyze_high_risk_group. now rewrite Hm. }
    destruct (empty hr) eqn:He.
    + unfold analyze_high_risk_group. rewrite Hm. cbn [mbind outcome_bind].
      rewrite He. unfold mret, outcome_ret. cbn [mbind outcome_bind].
      now rewrite String.eqb_refl.
    + destruct (analyze_nonempty df probs hr Hm He) as [Hne Hadd].
      rewrite (Hadd agg Htop).
      destruct (analyze_high_risk_group series_mean series_mode format_float
                  str_cell str_nat df probs None) as [s|e] eqn:Hs; [|done].
      cbn [mbind outcome_bind]. apply Hne in Hs.
      apply String.eqb_neq in Hs. now rewrite Hs.
Qed.

End AnalyzeMore.

(** ** The explanation prompt *)


(** ** The request handlers *)

Lemma model_dump_keys c : NoDup (map fst (model_dump c)).
Proof. apply (bool_decide_unpack _). vm_compute. exact I. Qed.


(** X20. Whatever a profile holds, the pipeline is given a one-row table
    with the nineteen fields of the profile as columns, in the order of
    their declaration, and a numeric [TotalCharges]: the number its text
    denotes, or 0. *)
Theorem profile_frame parse (c : CustomerProfile) :
  nrows (clean_frame parse (frame_of_record (model_dump c))) = 1
  ∧ columns (clean_frame parse (frame_of_record (model_dump c)))
    = ["gender"; "SeniorCitizen"; "Partner"; "Dependents"; "tenure";
       "PhoneService"; "MultipleLines"; "InternetService"; "OnlineSecurity";
       "OnlineBackup"; "DeviceProtection"; "TechSupport"; "StreamingTV";
       "StreamingMovies"; "Contract"; "PaperlessBilling"; "PaymentMethod";
       "MonthlyCharges"; "TotalCharges"]
  ∧ assoc "TotalCharges" (cols (clean_frame parse (frame_of_record (model_dump c))))
    = Some [CNum (default 0%Q (parse (TotalCharges c)))]
  ∧ wf_frame (clean_frame parse (frame_of_record (model_dump c))).
Proof.
  split; [reflexivity|]. split; [|split].
  - rewrite columns_clean_frame, columns_frame_of_record. vm_compute. reflexivity.
  - rewrite (assoc_clean_frame parse _ "TotalCharges" [CStr (TotalCharges c)]);
      [|vm_compute; reflexivity|done|done].
    unfold clean_column. rewrite String.eqb_refl. cbn [fillna to_numeric map to_numeric_cell].
    now destruct (parse (TotalCharges c)).
  - apply wf_clean_frame, wf_frame_of_record, model_dump_keys.
Qed.

Section Handlers.

Variable parse : string → option Q.
Variable joblib_load : string → outcome Pipeline.
Variable read_text : string → outcome string.
Variable get_gemini_explanation : string → outcome string.
Variable read_csv : string → outcome DataFrame.
Variable str_exn : exn → string.
Variable series_mean : list cell → outcome Q.
Variable series_mode : list cell → list cell.
Variable format_percent : Q → string.
Variable format_float : nat → Q → string.
Variable str_cell : cell → string.
Variable str_nat : nat → string.

Local Abbreviation predict_single_endpoint :=
  (Routes.predict_single_endpoint parse joblib_load str_exn).
Local Abbreviation predict_batch_analysis_endpoint :=
  (Routes.predict_batch_analysis_endpoint parse joblib_load read_text
     get_gemini_explanation read_csv str_exn series_mean series_mode format_float
     str_cell str_nat).
Local Abbreviation explain_shap_endpoint :=
  (Routes.explain_shap_endpoint read_text get_gemini_explanation str_exn
     format_percent format_float).

(** X21. When the model file cannot be loaded, every scoring request is
    answered with status 500 and the detail [Model not loaded], and the
    state is left as it is. *)
Theorem no_model_no_scoring e :
  joblib_load "data/best_churn_model.pkl" = Raise e →
  ∀ customer file st,
    predict_single_endpoint customer st = (HTTPException 500 "Model not loaded", st)
    ∧ predict_batch_analysis_endpoint file st
      = (HTTPException 500 "Model not loaded", st).
Proof.
  intros H customer file st.
  unfold Routes.predict_single_endpoint, Routes.predict_batch_analysis_endpoint,
    Routes.model, Routes.load_model.
  now rewrite H.
Qed.

(** X22. With a loaded model the answer to [/predict] is a function of
    the profile alone: what the pipeline computes from the cleaned
    profile, or status 500 with the text of the exception a pipeline
    stage raised. Cleaning a profile never fails, and neither the heap
    nor an earlier request has a say. *)
Theorem predict_endpoint_response m :
  joblib_load "data/best_churn_model.pkl" = Ok m →
  ∀ customer st,
    fst (predict_single_endpoint customer st)
    = match score m (clean_frame parse (frame_of_record (model_dump customer))) with
      | Ok result => Response result
      | Raise e => HTTPException 500 (str_exn e)
      end.
Proof.
  intros H customer st.
  unfold Routes.predict_single_endpoint, Routes.model, Routes.load_model. rewrite H.
  pose proof (predict_single_run parse m (model_dump customer) (heap st)
                (model_dump_keys customer)) as Hrun.
  destruct (score m _) as [result|e].
  - destruct Hrun as (s' & -> & _). reflexivity.
  - now rewrite Hrun.
Qed.

(** X23. A successful [/predict] stores the probability, the attribution
    values and the names it returned, and the next [/explain_shap] asks
    Gemini about exactly these: the prompt is built from the stored
    probability and the five top-ranked stored features, and the state
    stays as [/predict] left it. *)
Theorem explain_after_predict customer st result st' :
  predict_single_endpoint customer st = (Response result, st') →
  latest_prediction_storage st'
  = Some (mkLatest (churn_probability result) (shap_values result)
            (feature_names result))
  ∧ explain_shap_endpoint st'
    = (match get_gemini_explanation
               (generate_shap_explanation_prompt format_percent format_float
                  (churn_probability result)
                  (get_top_features (shap_values result) (feature_names result) 5)
                  (Routes.context read_text)) with
       | Ok explanation => Response explanation
       | Raise e => HTTPException 500 (str_exn e)
       end, st').
Proof.
  unfold Routes.predict_single_endpoint.
  destruct (Routes.model joblib_load) as [m|]; [|done].
  destruct (predict_single parse m (model_dump customer) (heap st)) as [[r h]|e]; [|done].
  intros [= <- <-]. split; [reflexivity|].
  unfold Routes.explain_shap_endpoint. cbn [latest_prediction_storage
    latest_probability latest_shap_values latest_feature_names].
  now destruct (get_gemini_explanation _).
Qed.

(** X24. Only a successful [/predict] changes the stored prediction: a
    [/predict] that answers with an error leaves it as it was,
    [/predict_batch_analysis] never touches it, and [/explain_shap]
    never changes the state. *)
Theorem stored_prediction_changes_only_on_success :
  (∀ customer st code detail st',
      predict_single_endpoint customer st = (HTTPException code detail, st') →
      latest_prediction_storage st' = latest_prediction_storage st)
  ∧ (∀ file st,
       latest_prediction_storage (snd (predict_batch_analysis_endpoint file st))
       = latest_prediction_storage st)
  ∧ (∀ st, snd (explain_shap_endpoint st) = st).
Proof.
  split; [|split].
  - intros customer st code detail st'. unfold Routes.predict_single_endpoint.
    destruct (Routes.model joblib_load) as [m|]; [|now intros [= _ _ <-]].
    destruct (predict_single parse m (model_dump customer) (heap st)) as [[r h]|e];
      [done | now intros [= _ _ <-]].
  - intros file st. unfold Routes.predict_batch_analysis_endpoint.
    destruct (Routes.model joblib_load) as [m|]; [|done].
    now destruct (Routes.batch_analysis _ _ _ _ _ _ _ _ _ _ _ _) as [[b h]|e].
  - intros st. unfold Routes.explain_shap_endpoint.
    destruct (latest_prediction_storage st) as [d|]; [|done].
    now destruct (get_gemini_explanation _).
Qed.

(** X25. [/explain_shap] answers with status 400 and the detail
    [No prediction found. Run /predict first.] exactly when no prediction
    is stored; with a stored prediction its answer is Gemini's text or
    status 500. *)
Theorem explain_requires_prediction st :
  fst (explain_shap_endpoint st)
  = HTTPException 400 "No prediction found. Run /predict first."
  ↔ latest_prediction_storage st = None.
Proof.
  unfold Routes.explain_shap_endpoint.
  destruct (latest_prediction_storage st) as [d|]; [|done].
  destruct (get_gemini_explanation _); split; done.
Qed.

End Handlers.

(** ** The batch request *)



Section BatchHandler.

Variable parse : string → option Q.
Variable joblib_load : string → outcome Pipeline.
Variable read_text : string → outcome string.
Variable get_gemini_explanation : string → outcome string.
Variable read_csv : string → outcome DataFrame.
Variable str_exn : exn → string.
Variable series_mean : list cell → outcome Q.
Variable series_mode : list cell → list cell.
Variable format_float : nat → Q → string.
Variable str_cell : cell → string.
Variable str_nat : nat → string.


End BatchHandler.

(** ** The handlers at the reference instances *)

Lemma no_model_no_scoring_witness :
  Routes.predict_single_endpoint Decimal.parse DemoApp.joblib_load_failing
    DemoApp.str_exn DemoApp.profile DemoApp.initial
  = (HTTPException 500 "Model not loaded", DemoApp.initial)
  ∧ Routes.predict_batch_analysis_endpoint Decimal.parse DemoApp.joblib_load_failing
      DemoApp.read_text DemoApp.get_gemini_explanation DemoApp.read_csv DemoApp.str_exn
      Demo.series_mean Demo.series_mode Demo.format_float Demo.str_cell Demo.str_nat
      "rows" DemoApp.initial
    = (HTTPException 500 "Model not loaded", DemoApp.initial).
Proof.
  apply (no_model_no_scoring Decimal.parse DemoApp.joblib_load_failing
           DemoApp.read_text DemoApp.get_gemini_explanation DemoApp.read_csv
           DemoApp.str_exn Demo.series_mean Demo.series_mode Demo.format_float
           Demo.str_cell Demo.str_nat ValueError).
  reflexivity.
Defined.

Lemma predict_endpoint_response_witness :
  fst (Routes.predict_single_endpoint Decimal.parse DemoApp.joblib_load DemoApp.str_exn
         DemoApp.profile DemoApp.initial)
  = match score Demo.model
            (clean_frame Decimal.parse (frame_of_record (model_dump DemoApp.profile))) with
    | Ok result => Response result
    | Raise e => HTTPException 500 (DemoApp.str_exn e)
    end.
Proof.
  apply (predict_endpoint_response Decimal.parse DemoApp.joblib_load DemoApp.str_exn
           Demo.model).
  reflexivity.
Defined.

Lemma explain_after_predict_witness :
  ∃ result st',
    Routes.predict_single_endpoint Decimal.parse DemoApp.joblib_load DemoApp.str_exn
      DemoApp.profile DemoApp.initial = (Response result, st')
    ∧ latest_prediction_storage st'
      = Some (mkLatest (churn_probability result) (shap_values result)
                (feature_names result))
    ∧ Routes.explain_shap_endpoint DemoApp.read_text DemoApp.get_gemini_explanation
        DemoApp.str_exn DemoApp.format_percent Demo.format_float st'
      = (match DemoApp.get_gemini_explanation
                 (generate_shap_explanation_prompt DemoApp.format_percent
                    Demo.format_float (churn_probability result)
                    (get_top_features (shap_values result) (feature_names result) 5)
                    (Routes.context DemoApp.read_text)) with
         | Ok explanation => Response explanation
         | Raise e => HTTPException 500 (DemoApp.str_exn e)
         end, st').
Proof.
  eexists _, _. split; [vm_compute; reflexivity|].
  eapply (explain_after_predict Decimal.parse DemoApp.joblib_load DemoApp.read_text
            DemoApp.get_gemini_explanation DemoApp.str_exn DemoApp.format_percent
            Demo.format_float DemoApp.profile DemoApp.initial).
  vm_compute. reflexivity.
Defined.

